(** * prediction_url_cot_claude: a shallow embedding and its properties

    The tool answers a yes/no forecasting question: it asks a language model
    for search queries, fetches and extracts the pages found, selects a few
    documents by word count and parses the model's tagged prediction.

    Embedded here are the pure parts of
    [packages/napthaai/customs/prediction_url_cot_claude/prediction_url_cot_claude.py]
    ([select_docs], [parser_query_response], [parser_prediction_response],
    [extract_text], [extract_text_from_pdf], [extract_texts], [multi_queries]
    and the query stage of [fetch_additional_information]); the language
    model, the HTTP layer, the HTML and PDF libraries and Python's [float]
    are capabilities passed in as arguments. *)

From Stdlib Require Import Ascii String List ZArith Lia Bool Arith.
From Stdlib Require Import Permutation Sorted.
From Stdlib Require DecimalString.
From Stdlib.Strings Require Byte.
Import ListNotations.

Set Implicit Arguments.

(** ** Python values *)

(** A Python [str] is a sequence of code points.  The embedding covers the
    code points below 256 (the Latin-1 block), one [ascii] each. *)
Definition pystr := list ascii.

(** String literals. *)
Notation "$ s" := (list_ascii_of_string s) (at level 1, format "$ s").

Definition str_eqb (a b : pystr) : bool :=
  if list_eq_dec ascii_dec a b then true else false.

(** Exceptions a modelled function can raise, and results of fallible code. *)
Inductive exn : Type :=
| IndexError
| AttributeError
| ValueError (msg : pystr)
| OtherException (msg : pystr).

Inductive result (A : Type) : Type :=
| Ok (a : A)
| Raise (e : exn).
Arguments Ok {A} a.
Arguments Raise {A} e.

Definition bind {A B} (r : result A) (k : A -> result B) : result B :=
  match r with
  | Ok a => k a
  | Raise e => Raise e
  end.

Notation "x <- r ;; k" := (bind r (fun x => k))
  (at level 61, r at next level, right associativity).

(** [try: body except Exception: handler]. *)
Definition try_except {A} (body : result A) (handler : exn -> A) : A :=
  match body with
  | Ok a => a
  | Raise e => handler e
  end.

(** ** String primitives *)

(** [str.isspace] on one code point below 256: TAB..CR, FS..US, space,
    NEL (0x85) and NBSP (0xA0).  [str.split()] and [str.strip()] use the
    same class. *)
Definition isspace (c : ascii) : bool :=
  let n := N_of_ascii c in
  (((9 <=? n) && (n <=? 13)) || ((28 <=? n) && (n <=? 32))
   || (n =? 133) || (n =? 160))%N.

(** [str.isdigit] on one code point below 256: 0-9 and the superscripts
    two, three and one. *)
Definition isdigit (c : ascii) : bool :=
  let n := N_of_ascii c in
  (((48 <=? n) && (n <=? 57)) || (n =? 178) || (n =? 179) || (n =? 185))%N.

(** [text.split()]: maximal runs of non-whitespace; [cur] is the word being
    read. *)
Fixpoint split_ws_from (cur : pystr) (s : pystr) : list pystr :=
  match s with
  | [] => match cur with [] => [] | _ => [cur] end
  | c :: r =>
      if isspace c then
        match cur with
        | [] => split_ws_from [] r
        | _ => cur :: split_ws_from [] r
        end
      else split_ws_from (cur ++ [c]) r
  end.

Definition split_ws (s : pystr) : list pystr := split_ws_from [] s.

(** [sep.join(l)]. *)
Fixpoint join (sep : pystr) (l : list pystr) : pystr :=
  match l with
  | [] => []
  | x :: r =>
      match r with
      | [] => x
      | _ => x ++ sep ++ join sep r
      end
  end.

(** [l[:k]], for any integer [k]: a negative [k] counts from the end. *)
Definition slice_to {A} (l : list A) (k : Z) : list A :=
  if (k <? 0)%Z then firstn (Z.to_nat (Z.of_nat (length l) + k)) l
  else firstn (Z.to_nat k) l.

(** ** Documents and their selection *)

Record Document : Type := mkDocument {
  text : pystr;
  url : pystr;
  embedding : option (list Z)
}.

Definition set_text (d : Document) (t : pystr) : Document :=
  mkDocument t (url d) (embedding d).

Definition set_url (d : Document) (u : pystr) : Document :=
  mkDocument (text d) u (embedding d).

Definition MIN_WORDS : Z := 100.
Definition MAX_DOC_WORDS : Z := 10000.
Definition N_DOCS : Z := 5.

Definition count_words (t : pystr) : Z := Z.of_nat (length (split_ws t)).

(** A [dict] from url to word count, in insertion order: assigning to a key
    that is present keeps its position and replaces its value. *)
Definition dict (V : Type) := list (pystr * V).

Fixpoint dict_set {V} (d : dict V) (k : pystr) (v : V) : dict V :=
  match d with
  | [] => [(k, v)]
  | (k', v') :: r =>
      if str_eqb k k' then (k', v) :: r else (k', v') :: dict_set r k v
  end.

(** [d[k]]; [select_docs] looks up urls of its documents only, and these
    are keys ([word_counts_keys], below): the default stands for the
    [KeyError] that cannot occur. *)
Fixpoint dict_get (d : dict Z) (k : pystr) : Z :=
  match d with
  | [] => 0%Z
  | (k', v') :: r => if str_eqb k k' then v' else dict_get r k
  end.

Definition dict_keys {V} (d : dict V) : list pystr := map fst d.

(** [{doc.url: count_words(doc.text) for doc in docs}]. *)
Definition word_counts (docs : list Document) : dict Z :=
  fold_left (fun d doc => dict_set d (url doc) (count_words (text doc))) docs [].

(** [sorted(l, key=key, reverse=True)]: the stable sort by descending key;
    elements with equal keys keep their order. *)
Fixpoint insert_desc (key : pystr -> Z) (x : pystr) (l : list pystr)
  : list pystr :=
  match l with
  | [] => [x]
  | y :: r => if (key x <? key y)%Z then y :: insert_desc key x r else x :: l
  end.

Fixpoint sorted_desc (key : pystr -> Z) (l : list pystr) : list pystr :=
  match l with
  | [] => []
  | x :: r => insert_desc key x (sorted_desc key r)
  end.

(** The acceptance loop of [select_docs]:
<<
    for u in sorted_docs:
        if word_counts[u] >= 60: selected_urls.append(u)
        if len(selected_urls) == 4: break
>> *)
Fixpoint accept_loop (wc : dict Z) (sorted_docs : list pystr)
  (selected_urls : list pystr) : list pystr :=
  match sorted_docs with
  | [] => selected_urls
  | u :: r =>
      let selected_urls' :=
        if (60 <=? dict_get wc u)%Z then selected_urls ++ [u]
        else selected_urls in
      if (length selected_urls' =? 4)%nat then selected_urls'
      else accept_loop wc r selected_urls'
  end.

Definition sorted_docs (docs : list Document) : list pystr :=
  let wc := word_counts docs in
  sorted_desc (dict_get wc) (dict_keys wc).

Definition selected_urls (docs : list Document) : list pystr :=
  accept_loop (word_counts docs) (sorted_docs docs) [].

Definition str_in (u : pystr) (l : list pystr) : bool :=
  existsb (str_eqb u) l.

(** The truncation of one selected document. *)
Definition cap_doc (wc : dict Z) (doc : Document) : Document :=
  if (10000 <? dict_get wc (url doc))%Z
  then set_text doc (join $" " (slice_to (split_ws (text doc)) 10000))
  else doc.

(** [select_docs(docs, n_docs, min_words, max_words)].  The three
    parameters after [docs] are not read by the body. *)
Definition select_docs (docs : list Document) (n_docs : Z)
  (min_words max_words : Z) : list Document :=
  let wc := word_counts docs in
  let selected := selected_urls docs in
  let selected_docs := filter (fun doc => str_in (url doc) selected) docs in
  map (cap_doc wc) selected_docs.

(** ** Splitting on a separator, stripping, replacing *)

Definition char_eqb (a b : ascii) : bool := Ascii.eqb a b.

Definition dquote : ascii := "034"%char.
Definition lt_char : ascii := "<"%char.
Definition gt_char : ascii := ">"%char.
Definition newline : pystr := ["010"%char].

(** [s.startswith(p)]. *)
Fixpoint startswith (p s : pystr) : bool :=
  match p with
  | [] => true
  | a :: p' =>
      match s with
      | [] => false
      | b :: s' => char_eqb a b && startswith p' s'
      end
  end.

(** [s.endswith(p)]. *)
Definition endswith (p s : pystr) : bool := startswith (rev p) (rev s).

(** The first occurrence of [sep] in [s]: the text before it and the text
    after it. *)
Fixpoint cut (sep s : pystr) {struct s} : option (pystr * pystr) :=
  if startswith sep s then Some ([], skipn (length sep) s)
  else
    match s with
    | [] => None
    | c :: r =>
        match cut sep r with
        | Some (b, a) => Some (c :: b, a)
        | None => None
        end
    end.

(** [sub in s]. *)
Definition contains (sub s : pystr) : bool :=
  match cut sub s with Some _ => true | None => false end.

(** [s.split(sep)] for a non-empty [sep] (every separator of the program is
    one): cut at the first occurrence and go on after it.  Each cut removes a
    character at least, so [S (length s)] rounds are enough. *)
Fixpoint split_fuel (fuel : nat) (sep s : pystr) : list pystr :=
  match fuel with
  | O => [s]
  | S fuel' =>
      match cut sep s with
      | None => [s]
      | Some (b, a) => b :: split_fuel fuel' sep a
      end
  end.

Definition split (sep s : pystr) : list pystr :=
  split_fuel (S (length s)) sep s.

(** [l[i]]. *)
Definition item {A} (l : list A) (i : nat) : result A :=
  match nth_error l i with
  | Some x => Ok x
  | None => Raise IndexError
  end.

(** [s.strip()]. *)
Fixpoint lstrip (s : pystr) : pystr :=
  match s with
  | [] => []
  | c :: r => if isspace c then lstrip r else s
  end.

Definition rstrip (s : pystr) : pystr := rev (lstrip (rev s)).

Definition strip (s : pystr) : pystr := rstrip (lstrip s).

(** Truth value of a [str]. *)
Definition nonempty (s : pystr) : bool :=
  match s with [] => false | _ => true end.

(** [s.replace(c, '')] for a one-character [c]. *)
Definition replace_char_empty (c : ascii) (s : pystr) : pystr :=
  filter (fun x => negb (char_eqb x c)) s.

(** [re.sub(r'<[^>]*>', '', s)].  The pattern matches at a [<] that has a
    [>] after it, up to the first such [>]; the search goes on after the
    match.  [in_tag] tells that the scan is inside a match. *)
Fixpoint re_sub_tags_from (in_tag : bool) (s : pystr) : pystr :=
  match s with
  | [] => []
  | c :: r =>
      if in_tag then
        if char_eqb c gt_char then re_sub_tags_from false r
        else re_sub_tags_from true r
      else if char_eqb c lt_char && existsb (char_eqb gt_char) r
           then re_sub_tags_from true r
           else c :: re_sub_tags_from false r
  end.

Definition re_sub_tags (s : pystr) : pystr := re_sub_tags_from false s.

(** [l[::2]]. *)
Fixpoint evens {A} (l : list A) : list A :=
  match l with
  | [] => []
  | x :: r => x :: match r with [] => [] | _ :: r' => evens r' end
  end.

(** ** parser_query_response *)

Definition NUM_QUERIES : Z := 5.
Definition NUM_URLS_PER_QUERY : Z := 3.

(** [response.split("<queries>")[1].split("</queries>")[0].split("\n")]
    and the comprehension that strips the lines and drops the empty ones. *)
Definition parsed_queries (response : pystr) : result (list pystr) :=
  after <- item (split $"<queries>" response) 1 ;;
  inner <- item (split $"</queries>" after) 0 ;;
  let queries := split newline inner in
  Ok (map strip (filter (fun query => nonempty (strip query)) queries)).

(** The body of the loop over [parsed_queries]. *)
Definition enhance_query (query : pystr) : result pystr :=
  c <- item query 0 ;;
  let query :=
    if isdigit c then join $". " (skipn 1 (split $". " query)) else query in
  Ok (replace_char_empty dquote query).

Fixpoint enhance_loop (parsed : list pystr) (enhanced_queries : list pystr)
  : result (list pystr) :=
  match parsed with
  | [] => Ok enhanced_queries
  | query :: r =>
      q <- enhance_query query ;;
      enhance_loop r (enhanced_queries ++ [q])
  end.

(** [if len(enhanced_queries) == num_queries * 2: enhanced_queries[::2]]. *)
Definition halve_if_doubled (num_queries : Z) (enhanced_queries : list pystr)
  : list pystr :=
  if (Z.of_nat (length enhanced_queries) =? num_queries * 2)%Z
  then evens enhanced_queries
  else enhanced_queries.

Definition parser_query_response (response : pystr) (num_queries : Z)
  : result (list pystr) :=
  parsed <- parsed_queries response ;;
  enhanced_queries <- enhance_loop parsed [] ;;
  let enhanced_queries := halve_if_doubled num_queries enhanced_queries in
  let final_queries := map (replace_char_empty dquote) enhanced_queries in
  let final_queries := map re_sub_tags final_queries in
  Ok final_queries.

(** ** The query stage *)

Definition SYSTEM_PROMPT : pystr :=
  $"You are a world class algorithm for generating structured output from a given input.".

(** [str(n)] for an [int]. *)
Definition str_of_int (n : Z) : pystr :=
  list_ascii_of_string (DecimalString.NilZero.string_of_int (Z.to_int n)).

(** [URL_QUERY_PROMPT.format(USER_PROMPT=prompt, NUM_QUERIES=num_queries)]. *)
Definition URL_QUERY_PROMPT (USER_PROMPT : pystr) (NUM_QUERIES : Z) : pystr :=
  newline ++ $"Here is the user prompt: " ++ USER_PROMPT ++ newline ++
  newline ++
  $"Please read the prompt carefully and identify the key pieces of information that need to be searched for in order to comprehensively address the topic." ++ newline ++
  newline ++
  $"Brainstorm a list of " ++ str_of_int NUM_QUERIES ++ $" different search queries that cover various aspects of the user prompt. Each query should be focused on a specific sub-topic or question related to the overarching prompt." ++ newline ++
  newline ++
  $"Please write each search query inside its own tags, like this: example search query here" ++ newline ++
  newline ++
  $"The queries should be concise while still containing enough information to return relevant search results. Focus the queries on gathering factual information to address the prompt rather than opinions." ++ newline ++
  newline ++
  $"After you have written all " ++ str_of_int NUM_QUERIES ++ $" search queries, please submit your final response." ++ newline ++
  newline ++
  $"<queries></queries>" ++ newline.

(** What [client.messages.create] is called with, and what it returns. *)
Record Request (T : Type) : Type := mkRequest {
  req_model : pystr;
  req_user_content : pystr;
  req_system : pystr;
  req_temperature : T;
  req_max_tokens : Z
}.

Record Message : Type := mkMessage {
  msg_content : list pystr;        (* the [text] of each content block *)
  msg_input_tokens : Z;
  msg_output_tokens : Z
}.

Section QueryStage.

(** The type of the [temperature] setting. *)
Variable T : Type.

(** The language model: it answers or raises. *)
Variable client : Request T -> result Message.

(** A counter callback takes the token counts and the model name; it
    returns or raises.  Its own bookkeeping is not modelled. *)
Definition callback := Z -> Z -> pystr -> result unit.

Definition multi_queries (prompt engine : pystr) (num_queries : Z)
  (counter_callback : option callback) (temperature : T) (max_tokens : Z)
  : result (list pystr * option callback) :=
  let url_query_prompt := URL_QUERY_PROMPT prompt num_queries in
  response <- client (mkRequest engine url_query_prompt SYSTEM_PROMPT
                        temperature max_tokens) ;;
  _ <- match counter_callback with
       | Some cb =>
           cb (msg_input_tokens response) (msg_output_tokens response) engine
       | None => Ok tt
       end ;;
  block <- item (msg_content response) 0 ;;
  queries <- parser_query_response block num_queries ;;
  Ok (queries ++ [prompt], counter_callback).

(** The first statement of [fetch_additional_information]:
<<
  try:
      queries, counter_callback = multi_queries(...)
  except Exception as e:
      queries = [prompt]
>> *)
Definition generate_queries (prompt engine : pystr) (num_queries : Z)
  (counter_callback : option callback) (temperature : T) (max_tokens : Z)
  : list pystr * option callback :=
  try_except
    (multi_queries prompt engine num_queries counter_callback
       temperature max_tokens)
    (fun _ => ([prompt], counter_callback)).

End QueryStage.

(** ** Extraction *)

Definition bytes := list Byte.byte.

Definition bytes_eqb (a b : bytes) : bool :=
  if list_eq_dec Byte.byte_eq_dec a b then true else false.

(** [b'%PDF']. *)
Definition PDF_MAGIC : bytes := [Byte.x25; Byte.x50; Byte.x44; Byte.x46].

Definition HTTP_MAX_RETIES : nat := 2.
Definition BATCH_WINDOW : nat := 5.

(** A [requests.Response], as far as it is read. *)
Record Response : Type := mkResponse {
  status_code : Z;
  content_type : pystr;           (* [headers.get("Content-Type", "")] *)
  content : bytes;
  resp_text : pystr
}.

(** What ends up in the variable [doc] of [extract_texts]: a [Document], the
    [ValueError] instance that [extract_text_from_pdf] returns for a wrong
    content type (with the [url] attribute it may have been given), or
    [None]. *)
Inductive pyobj : Type :=
| DocObj (d : Document)
| ValueErrorObj (msg : pystr) (url_attr : option pystr)
| NoneObj.

(** [if num_words:] *)
Definition truthy (num_words : option Z) : bool :=
  match num_words with
  | Some n => negb (n =? 0)%Z
  | None => false
  end.

Definition int_of (num_words : option Z) : Z :=
  match num_words with Some n => n | None => 0%Z end.

(** [r.raise_for_status()]. *)
Definition raise_for_status (r : Response) : result unit :=
  if ((400 <=? status_code r) && (status_code r <? 600))%Z
  then Raise (OtherException $"HTTPError")
  else Ok tt.

(** [text += page.extract_text()] over the pages. *)
Fixpoint concat_pages (pages : list (result pystr)) (text : pystr)
  : result pystr :=
  match pages with
  | [] => Ok text
  | page :: r => t <- page ;; concat_pages r (text ++ t)
  end.

(** [obj.url = url]. *)
Definition setattr_url (obj : pyobj) (u : pystr) : result pyobj :=
  match obj with
  | DocObj d => Ok (DocObj (set_url d u))
  | ValueErrorObj msg _ => Ok (ValueErrorObj msg (Some u))
  | NoneObj => Raise AttributeError
  end.

Section Extraction.

(** [ReadabilityDocument(html).summary()] followed by [markdownify]: the
    markdown, [None], or an exception. *)
Variable html_to_markdown : pystr -> result (option pystr).

(** [requests.get(url, timeout=HTTP_TIMEOUT)]. *)
Variable http_get : pystr -> result Response.

(** [PyPDF2.PdfReader(...).pages] with the outcome of [extract_text()] on
    each page. *)
Variable pdf_reader : bytes -> result (list (result pystr)).

(** [executor.submit(session.get, url, ...)] at a given attempt: the
    future (the outcome its [result()] will have), or nothing when the
    submission raised [TooManyRedirects] or [RequestException].  (A request
    that fails in the pool shows when the future is asked for its result,
    not at the submission.) *)
Variable submit : pystr -> nat -> option (result Response).

Definition extract_text (html : pystr) (num_words : option Z)
  : result (option Document) :=
  text <- html_to_markdown html ;;
  match text with
  | None => Ok None
  | Some text =>
      let text :=
        if truthy num_words
        then join $" " (slice_to (split_ws text) (int_of num_words))
        else join $" " (split_ws text) in
      Ok (Some (mkDocument text [] None))
  end.

(** The [try] block of [extract_text_from_pdf]. *)
Definition extract_text_from_pdf_body (url : pystr) (num_words : option Z)
  : result pyobj :=
  response <- http_get url ;;
  _ <- raise_for_status response ;;
  if negb (contains $"application/pdf" (content_type response))
  then Ok (ValueErrorObj $"URL does not point to a PDF document" None)
  else
    pages <- pdf_reader (content response) ;;
    text <- concat_pages pages [] ;;
    Ok (DocObj (mkDocument
                  (if truthy num_words
                   then slice_to text (int_of num_words)
                   else text)
                  url None)).

Definition extract_text_from_pdf (url : pystr) (num_words : option Z)
  : pyobj :=
  try_except (extract_text_from_pdf_body url num_words) (fun _ => NoneObj).

(** The retry loop of [process_in_batches] for one url; [left] is
    [retries - attempt]. *)
Fixpoint submit_retrying (url : pystr) (attempt left : nat)
  : option (result Response) :=
  match left with
  | O => None
  | S left' =>
      match submit url attempt with
      | Some future => Some future
      | None => submit_retrying url (S attempt) left'
      end
  end.

(** [urls[i : i + window]] for [i] in [range(0, len(urls), window)]. *)
Fixpoint windows {A} (fuel window : nat) (l : list A) : list (list A) :=
  match fuel with
  | O => []
  | S fuel' =>
      match l with
      | [] => []
      | _ => firstn window l :: windows fuel' window (skipn window l)
      end
  end.

Definition process_in_batches (urls : list pystr)
  : list (list (option (result Response) * pystr)) :=
  map (map (fun url => (submit_retrying url 0 HTTP_MAX_RETIES, url)))
      (windows (length urls) BATCH_WINDOW urls).

(** Is the response handed to the PDF branch? *)
Definition is_pdf (url : pystr) (result : Response) : bool :=
  endswith $".pdf" url || bytes_eqb (firstn 4 (content result)) PDF_MAGIC.

(** The [try] block of [extract_texts] for one [(future, url)]: what it
    appends to [extracted_texts]. *)
Definition extract_texts_body (num_words : option Z)
  (future : result Response) (url : pystr) : result (list pyobj) :=
  result <- future ;;
  if (status_code result =? 200)%Z then
    doc <- (if is_pdf url result
            then Ok (extract_text_from_pdf url num_words)
            else d <- extract_text (resp_text result) num_words ;;
                 Ok (match d with Some d => DocObj d | None => NoneObj end)) ;;
    doc <- setattr_url doc url ;;
    Ok [doc]
  else Ok [].

Definition extract_texts_entry (num_words : option Z)
  (entry : option (result Response) * pystr) : list pyobj :=
  match fst entry with
  | None => []
  | Some future =>
      try_except (extract_texts_body num_words future (snd entry))
                 (fun _ => [])
  end.

Definition extract_texts (urls : list pystr) (num_words : option Z)
  : list pyobj :=
  flat_map (flat_map (extract_texts_entry num_words))
           (process_in_batches urls).

End Extraction.

(** The [Document]s among the extracted objects. *)
Definition documents (l : list pyobj) : list Document :=
  flat_map (fun o => match o with DocObj d => [d] | _ => [] end) l.

(** ** parser_prediction_response *)

Definition PREDICTION_KEYS : list pystr :=
  [$"p_yes"; $"p_no"; $"info_utility"; $"confidence"].

Definition open_tag (key : pystr) : pystr := $"<" ++ key ++ $">".
Definition close_tag (key : pystr) : pystr := $"</" ++ key ++ $">".

Section Prediction.

(** Python's floats, [float(s)] and the text [json.dumps] writes for a
    float. *)
Variable pyfloat : Type.
Variable float : pystr -> result pyfloat.
Variable float_repr : pyfloat -> pystr.

(** [float(response.split(f"<{key}>")[1].split(f"</{key}>")[0].strip())];
    every key of the loop is in the list the inner [if] tests. *)
Definition field_value (response key : pystr) : result pyfloat :=
  after <- item (split (open_tag key) response) 1 ;;
  inner <- item (split (close_tag key) after) 0 ;;
  float (strip inner).

(** The loop over the keys; any exception becomes
    [ValueError(f"Error parsing {key}")]. *)
Fixpoint parse_fields (response : pystr) (keys : list pystr)
  (results : dict pyfloat) : result (dict pyfloat) :=
  match keys with
  | [] => Ok results
  | key :: r =>
      match field_value response key with
      | Ok value => parse_fields response r (dict_set results key value)
      | Raise _ => Raise (ValueError ($"Error parsing " ++ key))
      end
  end.

(** [json.dumps] of a dict from plain keys to floats. *)
Definition json_dumps (results : dict pyfloat) : pystr :=
  $"{" ++
  join $", " (map (fun kv => [dquote] ++ fst kv ++ [dquote] ++ $": "
                             ++ float_repr (snd kv)) results)
  ++ $"}".

Definition parser_prediction_response (response : pystr) : result pystr :=
  results <- parse_fields response PREDICTION_KEYS [] ;;
  Ok (json_dumps results).

End Prediction.

(** A fragment of [float] for examples: the literals [0.d1...dk] with at
    most 15 digits, the first and the last not [0].  On these [float]
    succeeds and [repr] gives the literal back, so the float is represented
    by its literal. *)
Definition is_ascii_digit (c : ascii) : bool :=
  let n := N_of_ascii c in ((48 <=? n) && (n <=? 57))%N.

Definition probability_literal (s : pystr) : result pystr :=
  match s with
  | z :: p :: d :: ds =>
      if char_eqb z "0"%char && char_eqb p "."%char
         && forallb is_ascii_digit (d :: ds)
         && negb (char_eqb d "0"%char)
         && negb (char_eqb (last (d :: ds) d) "0"%char)
         && (length (d :: ds) <=? 15)%nat
      then Ok s
      else Raise (ValueError $"could not convert string to float")
  | _ => Raise (ValueError $"could not convert string to float")
  end.

(** ** extract_question *)

Definition newline_char : ascii := "010"%char.

(** Is a double quote ahead on the same line?  ([.] matches any character
    but the newline.) *)
Fixpoint closes (s : pystr) : bool :=
  match s with
  | [] => false
  | c :: r =>
      if char_eqb c dquote then true
      else if char_eqb c newline_char then false
      else closes r
  end.

(** [re.findall(r'\"(.*?)\"', s)]: the groups of the matches, from left to
    right.  A match starts at a double quote that [closes] and ends at the
    next double quote; [inside] holds the group read so far. *)
Fixpoint findall_quoted_from (inside : option pystr) (s : pystr)
  : list pystr :=
  match s with
  | [] => []
  | c :: r =>
      match inside with
      | Some group =>
          if char_eqb c dquote then group :: findall_quoted_from None r
          else findall_quoted_from (Some (group ++ [c])) r
      | None =>
          if char_eqb c dquote && closes r
          then findall_quoted_from (Some []) r
          else findall_quoted_from None r
      end
  end.

Definition findall_quoted (s : pystr) : list pystr :=
  findall_quoted_from None s.

Definition extract_question (prompt : pystr) : pystr :=
  try_except (item (findall_quoted prompt) 0) (fun _ => prompt).

(** ** get_urls_from_queries *)

Section Search.

(** [search_google(query, api_key, engine, num)]: the links of the results,
    or an exception (of the service, or for a response without items). *)
Variable search_google :
  pystr -> option pystr -> option pystr -> Z -> result (list pystr).

(** [list(set(l))]: the elements of [l], once each, in the order in which
    the set happens to iterate. *)
Variable list_set : list pystr -> list pystr.

(** The loop over the queries; a query whose search raises adds nothing. *)
Fixpoint search_loop (queries : list pystr) (api_key engine : option pystr)
  (num : Z) (results : list pystr) : list pystr :=
  match queries with
  | [] => results
  | query :: r =>
      search_loop r api_key engine num
        (try_except
           (urls <- search_google query api_key engine num ;;
            Ok (results ++ urls))
           (fun _ => results))
  end.

Definition get_urls_from_queries (queries : list pystr)
  (api_key engine : option pystr) (num : Z) : list pystr :=
  list_set (search_loop queries api_key engine num []).

End Search.

(** ** fetch_additional_information *)

(** Truth value of what [extract_texts] returns: a model instance and an
    exception instance are true, [None] is false. *)
Definition obj_truthy (o : pyobj) : bool :=
  match o with
  | NoneObj => false
  | _ => true
  end.

(** [hasattr(doc, 'text') and doc.text != ""]. *)
Definition has_text (o : pyobj) : bool :=
  match o with
  | DocObj d => nonempty (text d)
  | _ => false
  end.

Definition filtered_docs (docs : list pyobj) : list Document :=
  documents (filter has_text (filter obj_truthy docs)).

(** [f"ARTICLE {i}, URL: {doc.url}, CONTENT: {doc.text}\n"] over
    [enumerate(selected_docs)], from index [i]. *)
Fixpoint articles (i : nat) (selected_docs : list Document) : list pystr :=
  match selected_docs with
  | [] => []
  | doc :: r =>
      ($"ARTICLE " ++ str_of_int (Z.of_nat i) ++ $", URL: " ++ url doc
       ++ $", CONTENT: " ++ text doc ++ newline)
      :: articles (S i) r
  end.

(** Truth value of [source_links]: [None] and the empty dict are false. *)
Definition links_truthy (source_links : option (dict pystr)) : bool :=
  match source_links with
  | Some (_ :: _) => true
  | _ => false
  end.

(** [sys.maxsize], on a 64-bit build. *)
Definition SYS_MAXSIZE : Z := 9223372036854775807.

(** The stop of [islice(items, num_urls or len(source_links))]; [islice]
    refuses a negative stop and a stop above [sys.maxsize]. *)
Definition islice_stop (num_urls : option Z) (len : nat) : result nat :=
  let stop := if truthy num_urls then int_of num_urls else Z.of_nat len in
  if ((stop <? 0) || (SYS_MAXSIZE <? stop))%Z
  then Raise (ValueError $"Stop argument for islice() must be None or an integer: 0 <= x <= sys.maxsize.")
  else Ok (Z.to_nat stop).

Section Pipeline.

Variable T : Type.
Variable client : Request T -> result Message.
Variable search_google :
  pystr -> option pystr -> option pystr -> Z -> result (list pystr).
Variable list_set : list pystr -> list pystr.
Variable html_to_markdown : pystr -> result (option pystr).
Variable http_get : pystr -> result Response.
Variable pdf_reader : bytes -> result (list (result pystr)).
Variable submit : pystr -> nat -> option (result Response).

(** The loop over the supplied pages:
<<
    doc = extract_text(html=content); doc.url = url; docs.append(doc)
>>
    Nothing is caught here. *)
Fixpoint source_loop (items : list (pystr * pystr)) (docs : list pyobj)
  : result (list pyobj) :=
  match items with
  | [] => Ok docs
  | (u, page) :: r =>
      d <- extract_text html_to_markdown page None ;;
      doc <- setattr_url (match d with Some d => DocObj d | None => NoneObj end)
                         u ;;
      source_loop r (docs ++ [doc])
  end.

(** The documents gathered by [fetch_additional_information], before the
    filters. *)
Definition gather_docs (queries : list pystr)
  (google_api_key google_engine_id : option pystr)
  (source_links : option (dict pystr)) (num_urls : option Z)
  : result (list pyobj) :=
  if negb (links_truthy source_links) then
    let urls := get_urls_from_queries search_google list_set queries
                  google_api_key google_engine_id NUM_URLS_PER_QUERY in
    let urls := list_set urls in
    Ok (extract_texts html_to_markdown http_get pdf_reader submit urls None)
  else
    let items := match source_links with Some d => d | None => [] end in
    stop <- islice_stop num_urls (length items) ;;
    source_loop (firstn stop items) [].

Definition fetch_additional_information (prompt engine : pystr)
  (google_api_key google_engine_id : option pystr)
  (counter_callback : option callback)
  (source_links : option (dict pystr)) (num_urls : option Z)
  (num_queries : Z) (temperature : T) (max_tokens : Z) (n_docs : Z)
  : result (pystr * option callback) :=
  let stage := generate_queries client prompt engine num_queries
                 counter_callback temperature max_tokens in
  let queries := fst stage in
  let counter_callback := snd stage in
  docs <- gather_docs queries google_api_key google_engine_id
            source_links num_urls ;;
  let docs := filter obj_truthy docs in
  let filtered := documents (filter has_text docs) in
  let selected_docs := select_docs filtered n_docs MIN_WORDS MAX_DOC_WORDS in
  let additional_information := join newline (articles 0 selected_docs) in
  Ok (additional_information, counter_callback).

End Pipeline.

(** ** run *)

Definition ALLOWED_TOOLS : list pystr := [$"prediction-url-cot-claude"].
Definition ALLOWED_MODELS : list pystr := [$"claude-3-haiku-20240307"].

(** [{tool: "claude-3-haiku-20240307" for tool in ALLOWED_TOOLS}]. *)
Definition TOOL_TO_ENGINE : dict pystr :=
  fold_left (fun d tool => dict_set d tool $"claude-3-haiku-20240307")
            ALLOWED_TOOLS [].

Definition DEFAULT_MAX_TOKENS : Z := 1000.

Definition KeyError (key : pystr) : exn := OtherException ($"KeyError: " ++ key).

(** [d[k]] on a dict of strings. *)
Fixpoint dict_item {V} (d : dict V) (k : pystr) : result V :=
  match d with
  | [] => Raise (KeyError k)
  | (k', v) :: r => if str_eqb k k' then Ok v else dict_item r k
  end.

(** [kwargs[key]] and [kwargs.get(key, default)] on an entry that is there
    or not. *)
Definition required {A} (key : pystr) (entry : option A) : result A :=
  match entry with
  | Some a => Ok a
  | None => Raise (KeyError key)
  end.

Definition get_default {A} (entry : option A) (default : A) : A :=
  match entry with
  | Some a => a
  | None => default
  end.

(** [PREDICTION_PROMPT.format(ADDITIONAL_INFORMATION=..., USER_PROMPT=...)]. *)
Definition PREDICTION_PROMPT (ADDITIONAL_INFORMATION USER_PROMPT : pystr)
  : pystr :=
  newline ++
  $"Here is some additional background information that may be relevant to the question:" ++ newline ++
  $"<additional_information> " ++ ADDITIONAL_INFORMATION ++ $" </additional_information>" ++ newline ++
  newline ++
  $"A user has asked the following:" ++ newline ++
  newline ++
  $"<user_prompt> " ++ USER_PROMPT ++ $" </user_prompt>" ++ newline ++
  newline ++
  $"Carefully consider the user's question and the additional information provided. Think through the likelihood of the event the user asked about actually happening in the future, based on the details given. Write out your reasoning and analysis in a section." ++ newline ++
  newline ++
  $"Now, based on your analysis above, provide a prediction of the probability the event will happen, as p_yes between 0 and 1. Also provide the probability it will not happen, as p_no between 0 and 1. The two probabilities should sum to 1." ++ newline ++
  newline ++
  $"p_yes: p_no:" ++ newline ++
  newline ++
  $"How useful was the additional information in allowing you to make a prediction? Provide your rating as info_utility, a number between 0 and 1." ++ newline ++
  newline ++
  $"info_utility:" ++ newline ++
  newline ++
  $"Finally, considering everything, what is your overall confidence in your prediction? Provide your confidence as a number between 0 and 1." ++ newline ++
  newline ++
  $"confidence:" ++ newline ++
  newline ++
  $"Make sure the values you provide are between 0 and 1. And p_yes and p_no should sum to 1." ++ newline ++
  newline ++
  $"Your response should be structured as follows:" ++ newline ++
  $"<p_yes></p_yes>" ++ newline ++
  $"<p_no></p_no>" ++ newline ++
  $"<info_utility></info_utility>" ++ newline ++
  $"<confidence></confidence>" ++ newline ++
  $"<analysis></analysis>" ++ newline.

(** The entries of [api_keys] and of [kwargs] that [run] reads; [None]
    stands for an entry that is not there. *)
Record ApiKeys : Type := mkApiKeys {
  key_anthropic : option pystr;
  key_google_api_key : option pystr;
  key_google_engine_id : option pystr
}.

Record Kwargs (T : Type) : Type := mkKwargs {
  kw_tool : option pystr;
  kw_model : option pystr;
  kw_prompt : option pystr;
  kw_max_tokens : option Z;
  kw_temperature : option T;
  kw_num_urls : option (option Z);
  kw_num_queries : option Z;
  kw_n_docs : option Z;
  kw_counter_callback : option callback;
  kw_api_keys : option ApiKeys;
  kw_source_links : option (dict pystr)
}.

(** What [run] returns: [(results, prediction_prompt, None,
    counter_callback)]. *)
Record RunOutput : Type := mkRunOutput {
  out_results : pystr;
  out_prediction_prompt : pystr;
  out_counter_callback : option callback
}.

Section Run.

Variable T : Type.

(** [DEFAULT_CLAUDE_SETTINGS["temperature"]], which is 0. *)
Variable DEFAULT_TEMPERATURE : T.

(** [anthropic.Anthropic(api_key=...)]: the client made with a key. *)
Variable anthropic : pystr -> Request T -> result Message.

Variable search_google :
  pystr -> option pystr -> option pystr -> Z -> result (list pystr).
Variable list_set : list pystr -> list pystr.
Variable html_to_markdown : pystr -> result (option pystr).
Variable http_get : pystr -> result Response.
Variable pdf_reader : bytes -> result (list (result pystr)).
Variable submit : pystr -> nat -> option (result Response).
Variable pyfloat : Type.
Variable float : pystr -> result pyfloat.
Variable float_repr : pyfloat -> pystr.

Definition run (kwargs : Kwargs T) : result RunOutput :=
  tool <- required $"tool" (kw_tool kwargs) ;;
  default_engine <- dict_item TOOL_TO_ENGINE tool ;;
  let model := get_default (kw_model kwargs) default_engine in
  raw_prompt <- required $"prompt" (kw_prompt kwargs) ;;
  let prompt := extract_question raw_prompt in
  let max_tokens := get_default (kw_max_tokens kwargs) DEFAULT_MAX_TOKENS in
  let temperature := get_default (kw_temperature kwargs) DEFAULT_TEMPERATURE in
  let num_urls := get_default (kw_num_urls kwargs) (Some NUM_URLS_PER_QUERY) in
  let num_queries := get_default (kw_num_queries kwargs) NUM_QUERIES in
  let n_docs := get_default (kw_n_docs kwargs) N_DOCS in
  let counter_callback := kw_counter_callback kwargs in
  let api_keys := get_default (kw_api_keys kwargs) (mkApiKeys None None None) in
  let google_api_key := key_google_api_key api_keys in
  let google_engine_id := key_google_engine_id api_keys in
  api_key <- required $"anthropic" (key_anthropic api_keys) ;;
  let client := anthropic api_key in
  if negb (str_in model ALLOWED_MODELS)
  then Raise (ValueError ($"Model " ++ model ++ $" not supported."))
  else if negb (str_in tool ALLOWED_TOOLS)
  then Raise (ValueError ($"Tool " ++ tool ++ $" not supported."))
  else
    default_engine <- dict_item TOOL_TO_ENGINE tool ;;
    let engine := get_default (kw_model kwargs) default_engine in
    fetched <- fetch_additional_information client search_google list_set
                 html_to_markdown http_get pdf_reader submit
                 prompt engine google_api_key google_engine_id
                 counter_callback (kw_source_links kwargs) num_urls
                 num_queries temperature max_tokens n_docs ;;
    let additional_information := fst fetched in
    let counter_callback := snd fetched in
    let prediction_prompt := PREDICTION_PROMPT additional_information prompt in
    response <- client (mkRequest engine prediction_prompt SYSTEM_PROMPT
                          temperature max_tokens) ;;
    _ <- match counter_callback with
         | Some cb =>
             cb (msg_input_tokens response) (msg_output_tokens response) engine
         | None => Ok tt
         end ;;
    block <- item (msg_content response) 0 ;;
    results <- parser_prediction_response float float_repr block ;;
    Ok (mkRunOutput results prediction_prompt counter_callback).

End Run.

(** ** Vocabulary of the statements *)

(** A word: what [str.split()] returns, a non-empty run without whitespace. *)
Definition no_space (w : pystr) : Prop := Forall (fun c => isspace c = false) w.
Definition word (w : pystr) : Prop := w <> [] /\ no_space w.

(** The text [select_docs] gives a document of more than 10000 words. *)
Definition first_words (k : Z) (t : pystr) : pystr :=
  join $" " (firstn (Z.to_nat k) (split_ws t)).

(** The dictionary after the documents [docs], started from [acc]. *)
Definition word_counts_from (acc : dict Z) (docs : list Document) : dict Z :=
  fold_left (fun d doc => dict_set d (url doc) (count_words (text doc)))
            docs acc.

(** Descending order of the keys. *)
Definition desc (key : pystr -> Z) (a b : pystr) : Prop := (key b <= key a)%Z.

(** Example documents: [n] words under the url [u]. *)
Definition example_text (n : nat) : pystr := join $" " (repeat $"w" n).

Definition example_doc (u : pystr) (n : nat) : Document :=
  mkDocument (example_text n) u None.

(** [sep] occurs in [s]. *)
Definition occurs (sep s : pystr) : Prop := exists b a, s = b ++ sep ++ a.

(** What the loop of [parser_query_response] makes of a non-empty line. *)
Definition strip_ordinal (query : pystr) : pystr :=
  match query with
  | c :: _ =>
      if isdigit c then join $". " (skipn 1 (split $". " query)) else query
  | [] => []
  end.

Definition enhanced (query : pystr) : pystr :=
  replace_char_empty dquote (strip_ordinal query).

(** What the two final comprehensions make of an enhanced query. *)
Definition final_query (query : pystr) : pystr :=
  re_sub_tags (replace_char_empty dquote query).

(** The query returned for a line. *)
Definition query_of_line (line : pystr) : pystr := final_query (enhanced line).

(** Some text of [q] matches [<[^>]*>]: a [<] has a [>] after it. *)
Definition has_tag (q : pystr) : Prop :=
  exists a b c, q = a ++ lt_char :: b ++ gt_char :: c.

(** Example capabilities: a markdown conversion that returns its input, a
    server that answers every request with an empty PDF response, a server
    response carrying a web page, PDF readers that find one page or raise,
    and an executor that never fails to submit. *)
Definition example_markdown (html : pystr) : result (option pystr) :=
  Ok (Some html).

Definition pdf_response : Response :=
  mkResponse 200 $"application/pdf" PDF_MAGIC [].

Definition html_response : Response :=
  mkResponse 200 $"text/html; charset=utf-8" [] $"hello  world".

Definition example_http_get (u : pystr) : result Response := Ok pdf_response.

Definition example_pdf_reader (b : bytes) : result (list (result pystr)) :=
  Ok [Ok $"alpha beta gamma"].

Definition spaced_pdf_reader (b : bytes) : result (list (result pystr)) :=
  Ok [Ok $"alpha  beta "].

Definition failing_pdf_reader (b : bytes) : result (list (result pystr)) :=
  Raise (OtherException $"PdfReadError").

Definition html_http_get (u : pystr) : result Response := Ok html_response.

Definition refusing_http_get (u : pystr) : result Response :=
  Raise (OtherException $"ConnectionError").

Definition example_submit (u : pystr) (attempt : nat)
  : option (result Response) :=
  Some (Ok html_response).

(** The first piece of [s.split(sep)]: [s] up to the first [sep]. *)
Definition first_piece (sep s : pystr) : pystr :=
  match cut sep s with
  | None => s
  | Some (b, _) => b
  end.

(** A key that can stand in a tag: no [<] in it, and no [/] in front. *)
Definition tag_name (key : pystr) : Prop :=
  ~ In lt_char key /\ hd_error key <> Some "/"%char.

(** [v] is the value text of [key] in [response]: what follows the first
    opening tag of the key, free of [<], up to the closing tag, the next
    opening tag of the key, or the end of the response. *)
Definition value_text (response key v : pystr) : Prop :=
  exists pre rest,
    response = pre ++ open_tag key ++ v ++ rest /\
    (forall b a, response = b ++ open_tag key ++ a ->
                 (length pre <= length b)%nat) /\
    ~ In lt_char v /\
    (rest = [] \/ startswith (close_tag key) rest = true \/
     startswith (open_tag key) rest = true).

(** A query that the parser has nothing to clean in. *)
Definition plain_query (l : pystr) : Prop :=
  l <> [] /\ strip l = l /\ ~ In dquote l /\ ~ In lt_char l /\
  ~ In newline_char l /\ (forall c r, l = c :: r -> isdigit c = false).

(** More example capabilities: a search that fails on one query, a
    [list(set(l))] with one possible order, and an executor whose requests
    to one host fail. *)
Definition example_search (query : pystr) (api_key engine : option pystr)
  (num : Z) : result (list pystr) :=
  if str_eqb query $"first" then Ok [$"http://a"; $"http://b"]
  else if str_eqb query $"second" then Ok [$"http://b"; $"http://c"]
  else Raise (OtherException $"HttpError").

Definition example_list_set (l : list pystr) : list pystr :=
  nodup (list_eq_dec ascii_dec) l.

Definition flaky_submit (u : pystr) (attempt : nat)
  : option (result Response) :=
  if startswith $"http://down/" u
  then Some (Raise (OtherException $"ConnectionError"))
  else Some (Ok html_response).

Definition two_page_reader (b : bytes) : result (list (result pystr)) :=
  Ok [Ok $"page one."; Ok $"page two."].

(** A model that is out of reach, a search that finds nothing, two
    supplied pages, and a markdown conversion that gives [None]. *)
Definition failing_client (r : Request Z) : result Message :=
  Raise (OtherException $"APIError").

Definition no_search (query : pystr) (api_key engine : option pystr)
  (num : Z) : result (list pystr) :=
  Ok [].

Definition example_links : dict pystr :=
  [($"http://a", example_text 61); ($"http://b", $"too short")].

Definition none_markdown (html : pystr) : result (option pystr) := Ok None.

(** A call of [run]: the keys, a prompt with the question between double
    quotes, and a model that answers every request with the prediction
    tags. *)
Definition example_keys : ApiKeys :=
  mkApiKeys (Some $"sk-key") (Some $"google-key") (Some $"engine-id").

Definition example_raw_prompt : pystr :=
  $"Answer the question " ++ dquote :: $"Will X happen by 2025?"
  ++ dquote :: $" with a probability.".

Definition example_kwargs (tool : pystr) (model : option pystr) : Kwargs Z :=
  mkKwargs (Some tool) model (Some example_raw_prompt) None None None None
           None None (Some example_keys) None.

Definition example_prediction : pystr :=
  $"<p_yes>0.7</p_yes><p_no>0.3</p_no><info_utility>0.8</info_utility><confidence>0.9</confidence><analysis>Uncertain.</analysis>".

Definition answering_anthropic (key : pystr) (r : Request Z)
  : result Message :=
  Ok (mkMessage [example_prediction] 10 20).

(** * Properties *)

Unset Implicit Arguments.

(** ** Strings *)

Lemma str_eqb_eq (a b : pystr) : str_eqb a b = true <-> a = b.
Proof.
  unfold str_eqb. destruct (list_eq_dec ascii_dec a b); split; congruence.
Qed.

Lemma str_eqb_refl (a : pystr) : str_eqb a a = true.
Proof. now apply str_eqb_eq. Qed.

Lemma str_eqb_neq (a b : pystr) : str_eqb a b = false <-> a <> b.
Proof.
  unfold str_eqb. destruct (list_eq_dec ascii_dec a b); split; congruence.
Qed.

Lemma str_in_In (u : pystr) (l : list pystr) : str_in u l = true <-> In u l.
Proof.
  unfold str_in. rewrite existsb_exists. split.
  - intros (x & Hx & E). apply str_eqb_eq in E. now subst.
  - intros H. exists u. split; [assumption | apply str_eqb_refl].
Qed.

Lemma split_ws_from_words (s cur : pystr) :
  no_space cur -> Forall word (split_ws_from cur s).
Proof.
  revert cur. induction s as [|c r IH]; intros cur Hcur; simpl.
  - destruct cur; constructor; [|constructor]. split; [discriminate | assumption].
  - destruct (isspace c) eqn:Ec.
    + destruct cur.
      * apply IH. constructor.
      * constructor; [split; [discriminate | assumption] | apply IH; constructor].
    + apply IH. apply Forall_app. split; [assumption | now repeat constructor].
Qed.

Lemma split_ws_words (s : pystr) : Forall word (split_ws s).
Proof. apply split_ws_from_words. constructor. Qed.

Lemma split_ws_from_app (w rest cur : pystr) :
  no_space w -> split_ws_from cur (w ++ rest) = split_ws_from (cur ++ w) rest.
Proof.
  revert cur. induction w as [|c w IH]; intros cur Hw; simpl.
  - now rewrite app_nil_r.
  - inversion Hw as [|? ? Hc Hw']; subst. rewrite Hc.
    rewrite (IH _ Hw'). now rewrite <- app_assoc.
Qed.

(** Splitting what [" ".join] made of words gives the words back. *)
Lemma split_ws_join (ws : list pystr) :
  Forall word ws -> split_ws (join $" " ws) = ws.
Proof.
  unfold split_ws. induction ws as [|x r IH]; intros H; [reflexivity|].
  inversion H as [|? ? [Hne Hx] Hr]; subst.
  destruct r as [|y r'].
  - simpl. rewrite <- (app_nil_r x) at 1. rewrite split_ws_from_app by assumption.
    simpl. destruct x; [contradiction | reflexivity].
  - change (join $" " (x :: y :: r')) with (x ++ $" " ++ join $" " (y :: r')).
    rewrite split_ws_from_app by assumption.
    change ($" " ++ join $" " (y :: r')) with (" "%char :: join $" " (y :: r')).
    cbn [split_ws_from app]. change (isspace " "%char) with true. cbn iota.
    rewrite (IH Hr). destruct x; [contradiction | reflexivity].
Qed.

Lemma slice_to_firstn {A} (l : list A) (k : Z) :
  (0 <= k)%Z -> slice_to l k = firstn (Z.to_nat k) l.
Proof.
  intros H. unfold slice_to. destruct (k <? 0)%Z eqn:E; [|reflexivity].
  apply Z.ltb_lt in E. lia.
Qed.

Lemma count_words_join (ws : list pystr) :
  Forall word ws -> count_words (join $" " ws) = Z.of_nat (length ws).
Proof. intros H. unfold count_words. now rewrite split_ws_join. Qed.

Lemma Forall_firstn {A} (P : A -> Prop) (n : nat) (l : list A) :
  Forall P l -> Forall P (firstn n l).
Proof.
  revert n. induction l as [|x l IH]; intros [|n] H; simpl; try constructor.
  - now inversion H.
  - apply IH. now inversion H.
Qed.

Lemma count_words_first_words (k : Z) (t : pystr) :
  (0 <= k <= count_words t)%Z -> count_words (first_words k t) = k.
Proof.
  intros H. unfold first_words.
  rewrite count_words_join by (apply Forall_firstn, split_ws_words).
  rewrite length_firstn. unfold count_words in H. lia.
Qed.

(** ** The word-count dictionary *)

Lemma dict_get_set (d : dict Z) (k k' : pystr) (v : Z) :
  dict_get (dict_set d k v) k' = if str_eqb k' k then v else dict_get d k'.
Proof.
  induction d as [|[k0 v0] r IH]; simpl; [reflexivity|].
  destruct (str_eqb k k0) eqn:E; simpl.
  - apply str_eqb_eq in E. subst k0.
    destruct (str_eqb k' k); reflexivity.
  - rewrite IH. destruct (str_eqb k' k0) eqn:E0; [|reflexivity].
    apply str_eqb_eq in E0. subst k0.
    destruct (str_eqb k' k) eqn:E1; [|reflexivity].
    apply str_eqb_eq in E1. subst. rewrite str_eqb_refl in E. discriminate.
Qed.

Lemma dict_keys_set {V} (d : dict V) (k u : pystr) (v : V) :
  In u (dict_keys (dict_set d k v)) <-> u = k \/ In u (dict_keys d).
Proof.
  unfold dict_keys. induction d as [|[k0 v0] r IH]; simpl.
  - intuition.
  - destruct (str_eqb k k0) eqn:E; simpl.
    + apply str_eqb_eq in E. subst. intuition.
    + rewrite IH. intuition.
Qed.

Lemma dict_keys_set_NoDup {V} (d : dict V) (k : pystr) (v : V) :
  NoDup (dict_keys d) -> NoDup (dict_keys (dict_set d k v)).
Proof.
  induction d as [|[k0 v0] r IH]; intros H.
  - simpl. constructor; [intros [] | constructor].
  - simpl. destruct (str_eqb k k0) eqn:E.
    + exact H.
    + inversion H as [|? ? Hnin Hr]; subst.
      change (NoDup (k0 :: dict_keys (dict_set r k v))).
      constructor; [| now apply IH].
      rewrite dict_keys_set. intros [->|Hin]; [|contradiction].
      rewrite str_eqb_refl in E. discriminate.
Qed.

Lemma word_counts_from_keys (docs : list Document) (acc : dict Z) (u : pystr) :
  In u (dict_keys (word_counts_from acc docs)) <->
  In u (dict_keys acc) \/ In u (map url docs).
Proof.
  revert acc. induction docs as [|d r IH]; intros acc; simpl.
  - intuition.
  - unfold word_counts_from in *. simpl. rewrite IH, dict_keys_set.
    intuition.
Qed.

Lemma word_counts_from_NoDup (docs : list Document) (acc : dict Z) :
  NoDup (dict_keys acc) -> NoDup (dict_keys (word_counts_from acc docs)).
Proof.
  revert acc. induction docs as [|d r IH]; intros acc H; simpl; [assumption|].
  apply IH. now apply dict_keys_set_NoDup.
Qed.

Lemma word_counts_from_other (docs : list Document) (acc : dict Z) (u : pystr) :
  ~ In u (map url docs) ->
  dict_get (word_counts_from acc docs) u = dict_get acc u.
Proof.
  revert acc. induction docs as [|d r IH]; intros acc H; simpl; [reflexivity|].
  unfold word_counts_from in *. simpl in *. rewrite IH by tauto.
  rewrite dict_get_set. destruct (str_eqb u (url d)) eqn:E; [|reflexivity].
  apply str_eqb_eq in E. subst. tauto.
Qed.

Lemma word_counts_from_get (docs : list Document) (acc : dict Z) (d : Document) :
  NoDup (map url docs) -> In d docs ->
  dict_get (word_counts_from acc docs) (url d) = count_words (text d).
Proof.
  revert acc. induction docs as [|x r IH]; intros acc Hnd Hin; [contradiction|].
  simpl in Hnd. inversion Hnd as [|? ? Hx Hr]; subst.
  unfold word_counts_from in *. simpl. destruct Hin as [->|Hin].
  - change (dict_get (word_counts_from
              (dict_set acc (url d) (count_words (text d))) r) (url d)
            = count_words (text d)).
    rewrite word_counts_from_other by assumption.
    rewrite dict_get_set. now rewrite str_eqb_refl.
  - now apply IH.
Qed.

(** With pairwise distinct urls, the count recorded for a document is its
    own. *)
Lemma word_counts_get (docs : list Document) (d : Document) :
  NoDup (map url docs) -> In d docs ->
  dict_get (word_counts docs) (url d) = count_words (text d).
Proof. apply word_counts_from_get. Qed.

Lemma word_counts_keys (docs : list Document) (u : pystr) :
  In u (dict_keys (word_counts docs)) <-> In u (map url docs).
Proof.
  unfold word_counts. change (fold_left _ docs []) with (word_counts_from [] docs).
  rewrite word_counts_from_keys. simpl. tauto.
Qed.

Lemma word_counts_NoDup (docs : list Document) :
  NoDup (dict_keys (word_counts docs)).
Proof. apply word_counts_from_NoDup. constructor. Qed.

(** ** Sorting and the acceptance loop *)

Lemma insert_desc_perm (key : pystr -> Z) (x : pystr) (l : list pystr) :
  Permutation (insert_desc key x l) (x :: l).
Proof.
  induction l as [|y r IH]; simpl; [apply Permutation_refl|].
  destruct (key x <? key y)%Z; [|apply Permutation_refl].
  eapply Permutation_trans; [apply perm_skip, IH | apply perm_swap].
Qed.

Lemma sorted_desc_perm (key : pystr -> Z) (l : list pystr) :
  Permutation (sorted_desc key l) l.
Proof.
  induction l as [|x r IH]; simpl; [constructor|].
  eapply Permutation_trans; [apply insert_desc_perm | now apply perm_skip].
Qed.

Lemma insert_desc_sorted (key : pystr -> Z) (x : pystr) (l : list pystr) :
  StronglySorted (desc key) l -> StronglySorted (desc key) (insert_desc key x l).
Proof.
  induction l as [|y r IH]; intros H; simpl.
  - repeat constructor.
  - inversion H as [|? ? Hr Hall]; subst.
    destruct (key x <? key y)%Z eqn:E.
    + apply Z.ltb_lt in E. constructor; [now apply IH|].
      rewrite Forall_forall in *. intros z Hz.
      apply (Permutation_in _ (insert_desc_perm key x r)) in Hz.
      destruct Hz as [<-|Hz]; [unfold desc; lia | now apply Hall].
    + apply Z.ltb_ge in E. constructor; [assumption|].
      constructor; [unfold desc; lia|].
      rewrite Forall_forall in *. intros z Hz. specialize (Hall z Hz).
      unfold desc in *. lia.
Qed.

Lemma sorted_desc_sorted (key : pystr -> Z) (l : list pystr) :
  StronglySorted (desc key) (sorted_desc key l).
Proof.
  induction l as [|x r IH]; simpl; [constructor | now apply insert_desc_sorted].
Qed.

(** In a list sorted by descending key, an element with a larger key stands
    before one with a smaller key. *)
Lemma sorted_desc_before (key : pystr -> Z) (l : list pystr) (a b : pystr) :
  StronglySorted (desc key) l -> NoDup l -> In a l -> In b l ->
  (key a < key b)%Z ->
  exists s1 s2 s3, l = s1 ++ b :: s2 ++ a :: s3.
Proof.
  intros Hs Hnd Ha Hb Hlt.
  destruct (in_split _ _ Ha) as (p & q & ->).
  apply in_app_or in Hb. destruct Hb as [Hb|[Hb|Hb]].
  - destruct (in_split _ _ Hb) as (s1 & s2 & ->).
    exists s1, s2, q. now rewrite <- app_assoc.
  - subst. lia.
  - exfalso. clear Hnd Ha. induction p as [|x p IH]; simpl in Hs.
    + inversion Hs as [|? ? _ Hall]; subst.
      rewrite Forall_forall in Hall. specialize (Hall b Hb). unfold desc in Hall. lia.
    + inversion Hs; subst. now apply IH.
Qed.

Lemma sorted_docs_In (docs : list Document) (u : pystr) :
  In u (sorted_docs docs) <-> In u (map url docs).
Proof.
  unfold sorted_docs. rewrite <- word_counts_keys. split; intros H.
  - eapply Permutation_in; [apply sorted_desc_perm | exact H].
  - eapply Permutation_in; [apply Permutation_sym, sorted_desc_perm | exact H].
Qed.

Lemma sorted_docs_NoDup (docs : list Document) : NoDup (sorted_docs docs).
Proof.
  unfold sorted_docs.
  eapply Permutation_NoDup; [apply Permutation_sym, sorted_desc_perm|].
  apply word_counts_NoDup.
Qed.

(** The loop only appends, and only urls it walks over whose count is 60 at
    least. *)
Lemma accept_loop_appends (wc : dict Z) (l acc : list pystr) :
  exists t, accept_loop wc l acc = acc ++ t /\
            forall u, In u t -> In u l /\ (60 <= dict_get wc u)%Z.
Proof.
  revert acc. induction l as [|u r IH]; intros acc; simpl.
  - exists []. split; [now rewrite app_nil_r | intros ? []].
  - destruct (60 <=? dict_get wc u)%Z eqn:E.
    + apply Z.leb_le in E.
      destruct (length (acc ++ [u]) =? 4)%nat.
      * exists [u]. split; [reflexivity|]. intros v [<-|[]]. auto.
      * destruct (IH (acc ++ [u])) as (t & -> & Ht).
        exists (u :: t). split; [now rewrite <- app_assoc|].
        intros v [<-|Hv]; [auto|]. destruct (Ht v Hv). auto.
    + destruct (length acc =? 4)%nat.
      * exists []. split; [now rewrite app_nil_r | intros ? []].
      * destruct (IH acc) as (t & -> & Ht).
        exists t. split; [reflexivity|]. intros v Hv. destruct (Ht v Hv). auto.
Qed.

(** The loop stops at four urls. *)
Lemma accept_loop_length (wc : dict Z) (l acc : list pystr) :
  (length acc < 4)%nat -> (length (accept_loop wc l acc) <= 4)%nat.
Proof.
  revert acc. induction l as [|u r IH]; intros acc H; simpl; [lia|].
  destruct (60 <=? dict_get wc u)%Z.
  - destruct (length (acc ++ [u]) =? 4)%nat eqn:E.
    + apply Nat.eqb_eq in E. lia.
    + apply Nat.eqb_neq in E. apply IH. rewrite length_app in *. simpl in *. lia.
  - destruct (length acc =? 4)%nat; [lia | now apply IH].
Qed.

(** If the loop accepts [a], standing after a qualifying [b] in the walk,
    it has accepted [b] before. *)
Lemma accept_loop_order (wc : dict Z) (s1 s2 acc : list pystr) (a b : pystr) :
  (60 <= dict_get wc b)%Z -> ~ In a acc -> ~ In a s1 -> a <> b ->
  In a (accept_loop wc (s1 ++ b :: s2) acc) ->
  exists l1 l2 l3, accept_loop wc (s1 ++ b :: s2) acc = l1 ++ b :: l2 ++ a :: l3.
Proof.
  intros Hb. revert acc. induction s1 as [|u r IH]; intros acc Hacc Hs1 Hab Hin.
  - simpl in *. apply Z.leb_le in Hb. rewrite Hb in *.
    destruct (length (acc ++ [b]) =? 4)%nat.
    + apply in_app_or in Hin. destruct Hin as [Hin|[Hin|[]]]; [tauto | congruence].
    + destruct (accept_loop_appends wc s2 (acc ++ [b])) as (t & E & _).
      rewrite E in *. rewrite <- app_assoc in Hin.
      apply in_app_or in Hin. destruct Hin as [Hin|[Hin|Hin]]; [tauto | congruence |].
      destruct (in_split a t Hin) as (t1 & t2 & ->).
      exists acc, t1, t2. now rewrite <- app_assoc.
  - simpl in Hs1. cbn [app accept_loop] in *.
    set (acc' := if (60 <=? dict_get wc u)%Z then acc ++ [u] else acc) in *.
    assert (Hacc' : ~ In a acc').
    { unfold acc'. destruct (60 <=? dict_get wc u)%Z; [|assumption].
      intros H. apply in_app_or in H. destruct H as [H|[H|[]]]; tauto. }
    destruct (length acc' =? 4)%nat; [contradiction|].
    apply IH; tauto.
Qed.

Lemma selected_urls_length (docs : list Document) :
  (length (selected_urls docs) <= 4)%nat.
Proof. apply accept_loop_length. simpl. lia. Qed.

Lemma selected_urls_qualify (docs : list Document) (u : pystr) :
  In u (selected_urls docs) ->
  In u (map url docs) /\ (60 <= dict_get (word_counts docs) u)%Z.
Proof.
  unfold selected_urls. intros H.
  destruct (accept_loop_appends (word_counts docs) (sorted_docs docs) [])
    as (t & E & Ht).
  rewrite E in H. simpl in H. destruct (Ht u H) as [H1 H2].
  split; [now apply sorted_docs_In | assumption].
Qed.

(** ** select_docs *)

Lemma select_docs_In (docs : list Document) (n_docs min_words max_words : Z)
  (d' : Document) :
  In d' (select_docs docs n_docs min_words max_words) <->
  exists d, In d docs /\ In (url d) (selected_urls docs) /\
            d' = cap_doc (word_counts docs) d.
Proof.
  unfold select_docs. rewrite in_map_iff. split.
  - intros (d & <- & Hd). apply filter_In in Hd. destruct Hd as [Hd Hs].
    apply str_in_In in Hs. eauto.
  - intros (d & Hd & Hs & ->). exists d. split; [reflexivity|].
    apply filter_In. split; [assumption | now apply str_in_In].
Qed.

Lemma cap_doc_url (wc : dict Z) (d : Document) : url (cap_doc wc d) = url d.
Proof. unfold cap_doc. destruct (10000 <? _)%Z; reflexivity. Qed.

Lemma filter_urls_NoDup (sel : list pystr) (docs : list Document) :
  NoDup (map url docs) ->
  NoDup (map url (filter (fun doc => str_in (url doc) sel) docs)).
Proof.
  induction docs as [|d r IH]; simpl; intros Hnd; [constructor|].
  inversion Hnd as [|? ? Hd Hr]; subst.
  destruct (str_in (url d) sel); simpl; [|auto].
  constructor; [|auto]. intros H. apply Hd.
  apply in_map_iff in H. destruct H as (x & E & Hx).
  apply filter_In in Hx. rewrite <- E. apply in_map. tauto.
Qed.

Lemma select_docs_length (docs : list Document) (n_docs min_words max_words : Z) :
  NoDup (map url docs) ->
  (length (select_docs docs n_docs min_words max_words) <= 4)%nat.
Proof.
  intros Hnd. unfold select_docs. rewrite length_map.
  rewrite <- (length_map url).
  transitivity (length (selected_urls docs)); [|apply selected_urls_length].
  apply NoDup_incl_length.
  - now apply filter_urls_NoDup.
  - intros u Hu. apply in_map_iff in Hu. destruct Hu as (x & <- & Hx).
    apply filter_In in Hx. now apply str_in_In.
Qed.

(** What [select_docs] does to a document it returns, when urls are
    pairwise distinct: more than 10000 words are cut to the first 10000,
    anything else is returned as it is. *)
Lemma cap_doc_distinct (docs : list Document) (d : Document) :
  NoDup (map url docs) -> In d docs ->
  ((10000 < count_words (text d))%Z ->
     cap_doc (word_counts docs) d = set_text d (first_words 10000 (text d))) /\
  ((count_words (text d) <= 10000)%Z -> cap_doc (word_counts docs) d = d).
Proof.
  intros Hnd Hd. unfold cap_doc. rewrite (word_counts_get _ _ Hnd Hd).
  split; intros H.
  - apply Z.ltb_lt in H. rewrite H. reflexivity.
  - apply Z.ltb_ge in H. rewrite H. reflexivity.
Qed.

(** C1, as amended: for every list of documents with pairwise distinct urls
    and every [n_docs], [select_docs] returns at most 4 documents; every
    returned document has 60 words at least; a document of more than 10000
    words is returned with its text cut to exactly its first 10000
    whitespace-delimited tokens (joined by single spaces), and any other
    returned document is returned unchanged. *)
Theorem select_docs_bounds (docs : list Document) (n_docs min_words max_words : Z) :
  NoDup (map url docs) ->
  (length (select_docs docs n_docs min_words max_words) <= 4)%nat /\
  forall d', In d' (select_docs docs n_docs min_words max_words) ->
    (60 <= count_words (text d'))%Z /\
    exists d, In d docs /\ url d' = url d /\
      ((10000 < count_words (text d))%Z ->
         d' = set_text d (first_words 10000 (text d)) /\
         count_words (text d') = 10000%Z) /\
      ((count_words (text d) <= 10000)%Z -> d' = d).
Proof.
  intros Hnd. split; [now apply select_docs_length|].
  intros d' Hd'. apply select_docs_In in Hd'. destruct Hd' as (d & Hd & Hs & ->).
  destruct (cap_doc_distinct docs d Hnd Hd) as [Hlong Hshort].
  apply selected_urls_qualify in Hs. destruct Hs as [_ Hq].
  rewrite (word_counts_get _ _ Hnd Hd) in Hq.
  assert (Hcut : (10000 < count_words (text d))%Z ->
                 count_words (text (cap_doc (word_counts docs) d)) = 10000%Z).
  { intros H. rewrite (Hlong H). simpl. apply count_words_first_words. lia. }
  split.
  - destruct (Z.ltb_spec 10000 (count_words (text d))) as [H|H].
    + rewrite (Hcut H). lia.
    + now rewrite (Hshort H).
  - exists d. split; [assumption|]. split; [apply cap_doc_url|]. split.
    + intros H. split; [now apply Hlong | now apply Hcut].
    + exact Hshort.
Qed.

Lemma select_docs_bounds_witness :
  let docs := [example_doc $"a" 61; example_doc $"b" 3] in
  NoDup (map url docs) /\
  (length (select_docs docs N_DOCS MIN_WORDS MAX_DOC_WORDS) <= 4)%nat /\
  forall d', In d' (select_docs docs N_DOCS MIN_WORDS MAX_DOC_WORDS) ->
    (60 <= count_words (text d'))%Z /\
    exists d, In d docs /\ url d' = url d /\
      ((10000 < count_words (text d))%Z ->
         d' = set_text d (first_words 10000 (text d)) /\
         count_words (text d') = 10000%Z) /\
      ((count_words (text d) <= 10000)%Z -> d' = d).
Proof.
  intros docs.
  assert (Hnd : NoDup (map url docs)).
  { repeat constructor; simpl; intuition discriminate. }
  split; [exact Hnd|].
  exact (select_docs_bounds docs N_DOCS MIN_WORDS MAX_DOC_WORDS Hnd).
Defined.

(** A document of 10002 words is returned with 10000, a document of 61
    words with its 61. *)
Lemma select_docs_caps_long_document :
  map (fun d => (url d, count_words (text d)))
      (select_docs [example_doc $"a" (Z.to_nat 10002); example_doc $"b" 61]
         N_DOCS MIN_WORDS MAX_DOC_WORDS)
  = [($"a", 10000%Z); ($"b", 61%Z)].
Proof. vm_compute. reflexivity. Qed.

(** C1 as stated fails when urls repeat: five documents that share a url
    and have 60 to 64 words are all returned; and of two documents sharing
    a url, a 3-word one is returned because the other has 60 words. *)
Lemma select_docs_repeated_url_counterexample :
  let five := [example_doc $"u" 60; example_doc $"u" 61; example_doc $"u" 62;
               example_doc $"u" 63; example_doc $"u" 64] in
  let two := [example_doc $"u" 3; example_doc $"u" 60] in
  length (select_docs five N_DOCS MIN_WORDS MAX_DOC_WORDS) = 5%nat /\
  ~ (length (select_docs five N_DOCS MIN_WORDS MAX_DOC_WORDS) <= 4)%nat /\
  In (example_doc $"u" 3) (select_docs two N_DOCS MIN_WORDS MAX_DOC_WORDS) /\
  count_words (text (example_doc $"u" 3)) = 3%Z.
Proof.
  cbv zeta.
  assert (E : length (select_docs
                [example_doc $"u" 60; example_doc $"u" 61; example_doc $"u" 62;
                 example_doc $"u" 63; example_doc $"u" 64]
                N_DOCS MIN_WORDS MAX_DOC_WORDS) = 5%nat) by (vm_compute; reflexivity).
  split; [exact E|]. split; [rewrite E; lia|].
  split; [|vm_compute; reflexivity].
  assert (E2 : select_docs [example_doc $"u" 3; example_doc $"u" 60]
                 N_DOCS MIN_WORDS MAX_DOC_WORDS
               = [example_doc $"u" 3; example_doc $"u" 60])
    by (vm_compute; reflexivity).
  rewrite E2. now left.
Qed.

(** C2, as amended: the result of [select_docs] is the same for any two
    values of [n_docs]; at most 4 urls are accepted whatever [n_docs] is;
    and, when the urls of the input are pairwise distinct, a document of
    fewer than 60 words is never among the returned ones. *)
Theorem select_docs_ignores_n_docs (docs : list Document) (min_words max_words : Z) :
  (forall n1 n2 : Z,
     select_docs docs n1 min_words max_words
     = select_docs docs n2 min_words max_words) /\
  (length (selected_urls docs) <= 4)%nat /\
  (NoDup (map url docs) ->
   forall (n_docs : Z) (d : Document),
     In d docs -> (count_words (text d) < 60)%Z ->
     forall d', In d' (select_docs docs n_docs min_words max_words) ->
                url d' <> url d).
Proof.
  split; [reflexivity|]. split; [apply selected_urls_length|].
  intros Hnd n_docs d Hd Hshort d' Hd' E.
  apply select_docs_In in Hd'. destruct Hd' as (d0 & _ & Hs & ->).
  rewrite cap_doc_url in E. rewrite E in Hs.
  apply selected_urls_qualify in Hs. destruct Hs as [_ Hq].
  rewrite (word_counts_get _ _ Hnd Hd) in Hq. lia.
Qed.

Lemma select_docs_ignores_n_docs_witness :
  let docs := [example_doc $"a" 61; example_doc $"b" 3] in
  NoDup (map url docs) /\
  (forall n1 n2 : Z,
     select_docs docs n1 MIN_WORDS MAX_DOC_WORDS
     = select_docs docs n2 MIN_WORDS MAX_DOC_WORDS) /\
  (length (selected_urls docs) <= 4)%nat /\
  (NoDup (map url docs) ->
   forall (n_docs : Z) (d : Document),
     In d docs -> (count_words (text d) < 60)%Z ->
     forall d', In d' (select_docs docs n_docs MIN_WORDS MAX_DOC_WORDS) ->
                url d' <> url d).
Proof.
  intros docs. split.
  - repeat constructor; simpl; intuition discriminate.
  - exact (select_docs_ignores_n_docs docs MIN_WORDS MAX_DOC_WORDS).
Defined.

(** C2 as stated fails when urls repeat: the 3-word document is returned,
    for [n_docs = 1] as for [n_docs = 5], because a 60-word document has
    the same url. *)
Lemma select_docs_short_document_counterexample :
  let docs := [example_doc $"u" 3; example_doc $"u" 60] in
  count_words (text (example_doc $"u" 3)) = 3%Z /\
  select_docs docs 1 MIN_WORDS MAX_DOC_WORDS = docs /\
  select_docs docs 5 MIN_WORDS MAX_DOC_WORDS = docs.
Proof. cbv zeta. repeat split; vm_compute; reflexivity. Qed.

(** C3, as amended: when the urls of the input are pairwise distinct and
    [B] has more words than [A], then whenever [A] is accepted, [B] was
    accepted earlier in the walk, and both are returned: [B] is never left
    out while [A] is kept. *)
Theorem select_docs_prefers_longer (docs : list Document)
  (n_docs min_words max_words : Z) (A B : Document) :
  NoDup (map url docs) -> In A docs -> In B docs ->
  (60 <= count_words (text A))%Z ->
  (count_words (text A) < count_words (text B))%Z ->
  In (url A) (selected_urls docs) ->
  (exists l1 l2 l3, selected_urls docs = l1 ++ url B :: l2 ++ url A :: l3) /\
  In (cap_doc (word_counts docs) B)
     (select_docs docs n_docs min_words max_words) /\
  In (cap_doc (word_counts docs) A)
     (select_docs docs n_docs min_words max_words).
Proof.
  intros Hnd HA HB HqA Hlt Hsel.
  set (wc := word_counts docs) in *.
  pose proof (word_counts_get _ _ Hnd HA) as EA.
  pose proof (word_counts_get _ _ Hnd HB) as EB.
  fold wc in EA, EB.
  assert (Hne : url A <> url B) by (intros E; rewrite E in EA; lia).
  assert (Hord : exists l1 l2 l3,
             selected_urls docs = l1 ++ url B :: l2 ++ url A :: l3).
  { destruct (@sorted_desc_before (dict_get wc) (sorted_docs docs)
                (url A) (url B)) as (s1 & s2 & s3 & E).
    - apply sorted_desc_sorted.
    - apply sorted_docs_NoDup.
    - apply sorted_docs_In. now apply in_map.
    - apply sorted_docs_In. now apply in_map.
    - lia.
    - pose proof (sorted_docs_NoDup docs) as Hs. rewrite E in Hs.
      unfold selected_urls in *. fold wc in Hsel |- *. rewrite E in *.
      apply accept_loop_order; try assumption; [lia | intros [] | ].
      change (s1 ++ url B :: s2 ++ url A :: s3)
        with (s1 ++ (url B :: s2) ++ url A :: s3) in Hs.
      rewrite app_assoc in Hs. apply NoDup_remove_2 in Hs.
      intros H. apply Hs. apply in_or_app. left. apply in_or_app. now left. }
  split; [exact Hord|].
  destruct Hord as (l1 & l2 & l3 & E).
  split; apply select_docs_In; [exists B | exists A]; repeat split; try assumption.
  rewrite E. apply in_or_app. right. now left.
Qed.

Lemma select_docs_prefers_longer_witness :
  let A := example_doc $"a" 61 in
  let B := example_doc $"b" 70 in
  let docs := [A; B] in
  NoDup (map url docs) /\ In A docs /\ In B docs /\
  (60 <= count_words (text A))%Z /\
  (count_words (text A) < count_words (text B))%Z /\
  In (url A) (selected_urls docs) /\
  (exists l1 l2 l3, selected_urls docs = l1 ++ url B :: l2 ++ url A :: l3) /\
  In (cap_doc (word_counts docs) B)
     (select_docs docs N_DOCS MIN_WORDS MAX_DOC_WORDS) /\
  In (cap_doc (word_counts docs) A)
     (select_docs docs N_DOCS MIN_WORDS MAX_DOC_WORDS).
Proof.
  intros A B docs.
  assert (Hnd : NoDup (map url docs))
    by (repeat constructor; simpl; intuition discriminate).
  assert (HA : In A docs) by (now left).
  assert (HB : In B docs) by (right; now left).
  assert (HqA : (60 <= count_words (text A))%Z) by (vm_compute; discriminate).
  assert (Hlt : (count_words (text A) < count_words (text B))%Z)
    by (vm_compute; reflexivity).
  assert (Hs : In (url A) (selected_urls docs)) by (vm_compute; tauto).
  repeat (split; [assumption|]).
  exact (select_docs_prefers_longer docs N_DOCS MIN_WORDS MAX_DOC_WORDS A B
           Hnd HA HB HqA Hlt Hs).
Defined.

(** C3 as stated fails when another document shares the url of [B]: [A]
    has 70 words and [B] 80, under different urls, but the count recorded
    for the url of [B] is the 60 of a later document; with three documents
    of 90 words the cutoff keeps [A] and leaves [B] out. *)
Lemma select_docs_shared_url_counterexample :
  let A := example_doc $"a" 70 in
  let B := example_doc $"b" 80 in
  let docs := [A; B; example_doc $"b" 60; example_doc $"c" 90;
               example_doc $"d" 90; example_doc $"e" 90] in
  count_words (text A) = 70%Z /\ count_words (text B) = 80%Z /\
  url A <> url B /\
  selected_urls docs = [$"c"; $"d"; $"e"; $"a"] /\
  select_docs docs N_DOCS MIN_WORDS MAX_DOC_WORDS
  = [A; example_doc $"c" 90; example_doc $"d" 90; example_doc $"e" 90] /\
  ~ In B (select_docs docs N_DOCS MIN_WORDS MAX_DOC_WORDS).
Proof.
  cbv zeta.
  assert (E : select_docs
                [example_doc $"a" 70; example_doc $"b" 80; example_doc $"b" 60;
                 example_doc $"c" 90; example_doc $"d" 90; example_doc $"e" 90]
                N_DOCS MIN_WORDS MAX_DOC_WORDS
              = [example_doc $"a" 70; example_doc $"c" 90; example_doc $"d" 90;
                 example_doc $"e" 90]) by (vm_compute; reflexivity).
  split; [vm_compute; reflexivity|]. split; [vm_compute; reflexivity|].
  split; [discriminate|]. split; [vm_compute; reflexivity|].
  split; [exact E|]. rewrite E.
  simpl. intros [H|[H|[H|[H|[]]]]]; apply (f_equal url) in H; discriminate H.
Qed.

(** ** Cutting and splitting on a separator *)

Lemma char_eqb_eq (a b : ascii) : char_eqb a b = true <-> a = b.
Proof. apply Ascii.eqb_eq. Qed.

Lemma char_eqb_refl (a : ascii) : char_eqb a a = true.
Proof. now apply char_eqb_eq. Qed.

Lemma char_eqb_neq (a b : ascii) : char_eqb a b = false <-> a <> b.
Proof. apply Ascii.eqb_neq. Qed.

Lemma startswith_app (p r : pystr) : startswith p (p ++ r) = true.
Proof. induction p as [|a p IH]; simpl; [reflexivity|]. now rewrite char_eqb_refl. Qed.

Lemma startswith_inv (p s : pystr) :
  startswith p s = true -> s = p ++ skipn (length p) s.
Proof.
  revert s. induction p as [|a p IH]; intros s H; [reflexivity|].
  destruct s as [|b s]; simpl in H; [discriminate|].
  apply andb_true_iff in H. destruct H as [E H]. apply char_eqb_eq in E. subst b.
  simpl. f_equal. now apply IH.
Qed.

Lemma skipn_length_app {A} (p r : list A) : skipn (length p) (p ++ r) = r.
Proof. induction p; simpl; auto. Qed.

Lemma cut_eq (sep s : pystr) :
  cut sep s =
  if startswith sep s then Some ([], skipn (length sep) s)
  else match s with
       | [] => None
       | c :: r =>
           match cut sep r with
           | Some (b, a) => Some (c :: b, a)
           | None => None
           end
       end.
Proof. destruct s; reflexivity. Qed.

Lemma cut_some (sep s b a : pystr) :
  cut sep s = Some (b, a) -> s = b ++ sep ++ a.
Proof.
  revert b. induction s as [|c r IH]; intros b; rewrite cut_eq.
  - destruct (startswith sep []) eqn:E; [|discriminate].
    intros H. injection H as <- <-. now apply startswith_inv.
  - destruct (startswith sep (c :: r)) eqn:E.
    + intros H. injection H as <- <-. now apply startswith_inv.
    + destruct (cut sep r) as [[b0 a0]|]; [|discriminate].
      intros H. injection H as <- <-. simpl. f_equal. now apply IH.
Qed.

(** [cut] finds the first occurrence. *)
Lemma cut_first (sep s b a : pystr) :
  cut sep s = Some (b, a) ->
  forall b' a', s = b' ++ sep ++ a' -> (length b <= length b')%nat.
Proof.
  revert b. induction s as [|c r IH]; intros b; rewrite cut_eq.
  - destruct (startswith sep []); [|discriminate].
    intros H. injection H as <- <-. intros. simpl. lia.
  - destruct (startswith sep (c :: r)) eqn:E.
    + intros H. injection H as <- <-. intros. simpl. lia.
    + destruct (cut sep r) as [[b0 a0]|] eqn:Ec; [|discriminate].
      intros H. injection H as <- <-. intros [|c' b'] a' Hs.
      * simpl in Hs. rewrite Hs, startswith_app in E. discriminate.
      * simpl in Hs. injection Hs as _ Hs. simpl.
        specialize (IH b0 eq_refl b' a' Hs). lia.
Qed.

Lemma cut_none (sep s : pystr) : cut sep s = None -> ~ occurs sep s.
Proof.
  induction s as [|c r IH]; rewrite cut_eq.
  - destruct (startswith sep []) eqn:E; [discriminate|].
    intros _ ([|c b] & a & H); [|discriminate].
    simpl in H. rewrite H, startswith_app in E. discriminate.
  - destruct (startswith sep (c :: r)) eqn:E; [discriminate|].
    destruct (cut sep r) as [[b0 a0]|]; [discriminate|].
    intros _ ([|c' b] & a & H).
    + simpl in H. rewrite H, startswith_app in E. discriminate.
    + simpl in H. injection H as _ H. apply IH; [reflexivity|]. now exists b, a.
Qed.

Lemma cut_occurs (sep s : pystr) :
  occurs sep s <-> exists b a, cut sep s = Some (b, a).
Proof.
  split.
  - intros H. destruct (cut sep s) as [[b a]|] eqn:E; [eauto|].
    now apply cut_none in E.
  - intros (b & a & H). exists b, a. now apply cut_some.
Qed.

Lemma cut_here (sep rest : pystr) : cut sep (sep ++ rest) = Some ([], rest).
Proof. rewrite cut_eq, startswith_app. now rewrite skipn_length_app. Qed.

(** A prefix without the first character of the separator is skipped. *)
Lemma cut_skip (h : ascii) (sep' v t : pystr) :
  ~ In h v ->
  cut (h :: sep') (v ++ t) =
  match cut (h :: sep') t with
  | Some (b, a) => Some (v ++ b, a)
  | None => None
  end.
Proof.
  induction v as [|c v IH]; intros Hv; simpl app.
  - destruct (cut (h :: sep') t) as [[b a]|]; reflexivity.
  - rewrite cut_eq. simpl startswith.
    assert (E : char_eqb h c = false).
    { apply char_eqb_neq. intros ->. apply Hv. now left. }
    rewrite E. simpl. rewrite IH by (intros H; apply Hv; now right).
    destruct (cut (h :: sep') t) as [[b a]|]; reflexivity.
Qed.

Lemma cut_length (sep s b a : pystr) :
  sep <> [] -> cut sep s = Some (b, a) -> (length a < length s)%nat.
Proof.
  intros Hsep H. apply cut_some in H. subst s. rewrite !length_app.
  destruct sep; [contradiction | simpl; lia].
Qed.

Lemma split_fuel_enough (sep : pystr) (n m : nat) (s : pystr) :
  sep <> [] -> (length s < n)%nat -> (length s < m)%nat ->
  split_fuel n sep s = split_fuel m sep s.
Proof.
  intros Hsep. revert m s. induction n as [|n IH]; intros m s Hn Hm; [lia|].
  destruct m as [|m]; [lia|]. simpl.
  destruct (cut sep s) as [[b a]|] eqn:E; [|reflexivity].
  pose proof (cut_length sep _ _ _ Hsep E). f_equal. apply IH; lia.
Qed.

(** The equation of [split]. *)
Lemma split_eq (sep s : pystr) :
  sep <> [] ->
  split sep s =
  match cut sep s with
  | None => [s]
  | Some (b, a) => b :: split sep a
  end.
Proof.
  intros Hsep. unfold split at 1.
  change (split_fuel (S (length s)) sep s)
    with (match cut sep s with
          | None => [s]
          | Some (b, a) => b :: split_fuel (length s) sep a
          end).
  destruct (cut sep s) as [[b a]|] eqn:E; [|reflexivity].
  pose proof (cut_length sep _ _ _ Hsep E). f_equal.
  unfold split. apply split_fuel_enough; auto; lia.
Qed.

Lemma split_not_nil (sep s : pystr) : split sep s <> [].
Proof. unfold split. simpl. destruct (cut sep s) as [[b a]|]; discriminate. Qed.

Lemma join_cons (sep x : pystr) (l : list pystr) :
  l <> [] -> join sep (x :: l) = x ++ sep ++ join sep l.
Proof. destruct l; [contradiction | reflexivity]. Qed.

(** Joining the pieces with the separator gives the text back. *)
Lemma join_split (sep s : pystr) : sep <> [] -> join sep (split sep s) = s.
Proof.
  intros Hsep.
  assert (H : forall n s, (length s < n)%nat -> join sep (split sep s) = s).
  { induction n as [|n IH]; intros s' Hn; [lia|].
    rewrite split_eq by assumption.
    destruct (cut sep s') as [[b a]|] eqn:E; [|reflexivity].
    pose proof (cut_length sep _ _ _ Hsep E).
    rewrite join_cons by apply split_not_nil.
    rewrite IH by lia. symmetry. now apply cut_some. }
  apply (H (S (length s))). lia.
Qed.

(** The text after the first separator: [sep.join(s.split(sep)[1:])]. *)
Lemma join_split_tail (sep s : pystr) :
  sep <> [] ->
  join sep (skipn 1 (split sep s)) =
  match cut sep s with
  | None => []
  | Some (_, a) => a
  end.
Proof.
  intros Hsep. rewrite split_eq by assumption.
  destruct (cut sep s) as [[b a]|]; [|reflexivity].
  simpl skipn. now apply join_split.
Qed.

(** The first and the second piece. *)
Lemma split_item_0 (sep s : pystr) :
  sep <> [] ->
  item (split sep s) 0 =
  Ok (match cut sep s with None => s | Some (b, _) => b end).
Proof.
  intros Hsep. rewrite split_eq by assumption.
  destruct (cut sep s) as [[b a]|]; reflexivity.
Qed.

Lemma split_item_1 (sep s : pystr) :
  sep <> [] ->
  item (split sep s) 1 =
  match cut sep s with
  | None => Raise IndexError
  | Some (_, a) => Ok (match cut sep a with None => a | Some (b, _) => b end)
  end.
Proof.
  intros Hsep. rewrite split_eq by assumption.
  destruct (cut sep s) as [[b a]|]; [|reflexivity].
  change (item (b :: split sep a) 1) with (item (split sep a) 0).
  now apply split_item_0.
Qed.

(** ** parser_query_response *)

Lemma replace_char_empty_In (c x : ascii) (s : pystr) :
  In x (replace_char_empty c s) <-> In x s /\ x <> c.
Proof.
  unfold replace_char_empty. rewrite filter_In, negb_true_iff, char_eqb_neq.
  tauto.
Qed.

Lemma replace_char_empty_idem (c : ascii) (s : pystr) :
  replace_char_empty c (replace_char_empty c s) = replace_char_empty c s.
Proof.
  unfold replace_char_empty. induction s as [|x s IH]; simpl; [reflexivity|].
  destruct (negb (char_eqb x c)) eqn:E; simpl; [rewrite E|]; now rewrite IH.
Qed.

Lemma re_sub_tags_from_In (x : ascii) (s : pystr) (in_tag : bool) :
  In x (re_sub_tags_from in_tag s) -> In x s.
Proof.
  revert in_tag. induction s as [|c r IH]; intros in_tag; simpl; [tauto|].
  destruct in_tag.
  - destruct (char_eqb c gt_char); intros H; right; eapply IH; eassumption.
  - destruct (char_eqb c lt_char && existsb (char_eqb gt_char) r).
    + intros H; right; eapply IH; eassumption.
    + intros [H|H]; [now left | right; eapply IH; eassumption].
Qed.

Lemma has_tag_cons (c : ascii) (o : pystr) :
  has_tag (c :: o) -> (c = lt_char /\ In gt_char o) \/ has_tag o.
Proof.
  intros ([|x a] & b & t & H); simpl in H; injection H as -> ->.
  - left. split; [reflexivity|]. apply in_or_app. right. now left.
  - right. now exists a, b, t.
Qed.

(** What [re.sub] returns has no [<] with a [>] after it: no text matches
    the pattern any more. *)
Lemma re_sub_tags_from_no_tag (s : pystr) (in_tag : bool) :
  ~ has_tag (re_sub_tags_from in_tag s).
Proof.
  revert in_tag. induction s as [|c r IH]; intros in_tag; simpl.
  - intros ([|x a] & b & t & H); discriminate H.
  - destruct in_tag.
    + destruct (char_eqb c gt_char); apply IH.
    + destruct (char_eqb c lt_char && existsb (char_eqb gt_char) r) eqn:E;
        [apply IH|].
      intros H. apply has_tag_cons in H. destruct H as [[-> Hin]|H].
      * apply re_sub_tags_from_In in Hin.
        rewrite char_eqb_refl in E. simpl in E.
        assert (existsb (char_eqb gt_char) r = true); [|congruence].
        apply existsb_exists. exists gt_char. split; [assumption | apply char_eqb_refl].
      * now apply (IH false).
Qed.

Lemma final_query_clean (q : pystr) :
  ~ In dquote (final_query q) /\ ~ has_tag (final_query q).
Proof.
  unfold final_query, re_sub_tags. split; [|apply re_sub_tags_from_no_tag].
  intros H. apply re_sub_tags_from_In in H.
  apply replace_char_empty_In in H. now destruct H.
Qed.

Lemma enhance_query_ok (query : pystr) :
  query <> [] -> enhance_query query = Ok (enhanced query).
Proof. destruct query; [contradiction | reflexivity]. Qed.

Lemma enhance_loop_ok (parsed acc : list pystr) :
  Forall (fun l => l <> []) parsed ->
  enhance_loop parsed acc = Ok (acc ++ map enhanced parsed).
Proof.
  revert acc. induction parsed as [|q r IH]; intros acc H; simpl.
  - now rewrite app_nil_r.
  - inversion H as [|? ? Hq Hr]; subst.
    rewrite (enhance_query_ok q Hq). simpl. rewrite (IH _ Hr).
    now rewrite <- app_assoc.
Qed.

(** The lines that survive the filter are stripped and not empty. *)
Lemma parsed_queries_nonempty (response : pystr) (lines : list pystr) :
  parsed_queries response = Ok lines -> Forall (fun l => l <> []) lines.
Proof.
  unfold parsed_queries, bind.
  destruct (item (split $"<queries>" response) 1) as [after|]; [|discriminate].
  destruct (item (split $"</queries>" after) 0) as [inner|]; [|discriminate].
  intros H. injection H as <-. apply Forall_forall. intros l Hl.
  apply in_map_iff in Hl. destruct Hl as (q & <- & Hq).
  apply filter_In in Hq. destruct Hq as [_ Hq].
  destruct (strip q); [discriminate Hq | discriminate].
Qed.

Lemma evens_map {A B} (f : A -> B) (l : list A) :
  evens (map f l) = map f (evens l).
Proof.
  assert (H : forall k, evens (map f k) = map f (evens k) /\
                        forall x, evens (map f (x :: k)) = map f (evens (x :: k))).
  { induction k as [|y r [IH1 IH2]]; split; try reflexivity.
    - apply IH2.
    - intros x. simpl. f_equal. apply IH1. }
  apply H.
Qed.

Lemma evens_nth_error {A} (l : list A) (i : nat) :
  nth_error (evens l) i = nth_error l (2 * i).
Proof.
  revert l. induction i as [|i IH]; intros l.
  - destruct l; reflexivity.
  - replace (2 * S i)%nat with (S (S (2 * i))) by lia.
    destruct l as [|x [|y r]]; cbn [nth_error evens].
    + reflexivity.
    + now destruct i.
    + apply IH.
Qed.

Lemma evens_length {A} (l : list A) (n : nat) :
  length l = (2 * n)%nat -> length (evens l) = n.
Proof.
  revert l. induction n as [|n IH]; intros l H.
  - destruct l; [reflexivity | discriminate H].
  - destruct l as [|x [|y r]]; simpl in H; try lia.
    simpl. f_equal. apply IH. lia.
Qed.

Lemma halve_if_doubled_map (f : pystr -> pystr) (n : Z) (l : list pystr) :
  halve_if_doubled n (map f l) = map f (halve_if_doubled n l).
Proof.
  unfold halve_if_doubled. rewrite length_map.
  destruct (Z.of_nat (length l) =? n * 2)%Z; [apply evens_map | reflexivity].
Qed.

(** The parser, on the lines that survive the filter: each line kept by
    the doubling rule gives one query. *)
Lemma parser_query_response_lines (response : pystr) (n : Z) (lines : list pystr) :
  parsed_queries response = Ok lines ->
  parser_query_response response n
  = Ok (map query_of_line (halve_if_doubled n lines)).
Proof.
  intros H. unfold parser_query_response. rewrite H. simpl.
  rewrite (enhance_loop_ok lines [] (parsed_queries_nonempty _ _ H)). simpl.
  rewrite halve_if_doubled_map, !map_map. reflexivity.
Qed.

Lemma parser_query_response_inv (response : pystr) (n : Z) (qs : list pystr) :
  parser_query_response response n = Ok qs ->
  exists lines, parsed_queries response = Ok lines /\
                qs = map query_of_line (halve_if_doubled n lines).
Proof.
  intros H. destruct (parsed_queries response) as [lines|e] eqn:E.
  - rewrite (parser_query_response_lines _ n _ E) in H. injection H as <-.
    now exists lines.
  - unfold parser_query_response in H. rewrite E in H. discriminate H.
Qed.

(** A line that starts with an ordinal [N. ] loses it. *)
Lemma query_of_line_ordinal (ds rest : pystr) :
  ds <> [] -> Forall (fun c => isdigit c = true) ds ->
  query_of_line (ds ++ $". " ++ rest) = final_query rest.
Proof.
  intros Hne Hds. unfold query_of_line, enhanced, final_query.
  rewrite replace_char_empty_idem. do 2 f_equal.
  destruct ds as [|c ds']; [contradiction|].
  unfold strip_ordinal. cbn [app].
  inversion Hds as [|? ? Hc _]; subst. rewrite Hc.
  change (c :: ds' ++ $". " ++ rest) with ((c :: ds') ++ $". " ++ rest).
  rewrite join_split_tail by discriminate.
  change $". " with ("."%char :: $" ").
  rewrite cut_skip.
  - change ("."%char :: $" ") with $". ". now rewrite cut_here.
  - intros Hin. rewrite Forall_forall in Hds. specialize (Hds _ Hin).
    discriminate Hds.
Qed.

(** A line that starts with a digit and has no [. ] becomes empty. *)
Lemma query_of_line_no_separator (line : pystr) (c : ascii) (r : pystr) :
  line = c :: r -> isdigit c = true -> ~ occurs $". " line ->
  enhance_query line = Ok [] /\ query_of_line line = [].
Proof.
  intros -> Hc Hno.
  assert (E : enhanced (c :: r) = []).
  { unfold enhanced, strip_ordinal. rewrite Hc.
    rewrite join_split_tail by discriminate.
    destruct (cut $". " (c :: r)) as [[b a]|] eqn:Ec; [|reflexivity].
    exfalso. apply Hno. apply cut_occurs. eauto. }
  split.
  - rewrite enhance_query_ok by discriminate. now rewrite E.
  - unfold query_of_line. now rewrite E.
Qed.

Lemma parser_query_response_cleaned (response : pystr) (n : Z) (lines : list pystr) :
  parsed_queries response = Ok lines ->
  enhance_loop lines [] = Ok (map enhanced lines) /\
  parser_query_response response n
  = Ok (map final_query (halve_if_doubled n (map enhanced lines))).
Proof.
  intros H.
  pose proof (enhance_loop_ok lines [] (parsed_queries_nonempty _ _ H)) as E.
  simpl in E. split; [exact E|].
  rewrite (parser_query_response_lines _ n _ H).
  rewrite halve_if_doubled_map, map_map. reflexivity.
Qed.

(** C5: when the number of cleaned lines is exactly [2 * num_queries], the
    parser keeps the entries at the even indices 0, 2, 4, ... and only
    them, [num_queries] entries in all; for any other count it keeps every
    entry.  ([cleaned] is [enhanced_queries] at the end of the loop.) *)
Theorem parser_query_response_halving (response : pystr) (num_queries : Z)
  (lines : list pystr) :
  parsed_queries response = Ok lines ->
  let cleaned := map enhanced lines in
  enhance_loop lines [] = Ok cleaned /\
  exists qs, parser_query_response response num_queries = Ok qs /\
    ((Z.of_nat (length cleaned) = num_queries * 2)%Z ->
       qs = map final_query (evens cleaned) /\
       Z.of_nat (length qs) = num_queries /\
       forall i, nth_error qs i
                 = option_map final_query (nth_error cleaned (2 * i))) /\
    ((Z.of_nat (length cleaned) <> num_queries * 2)%Z ->
       qs = map final_query cleaned /\ length qs = length cleaned).
Proof.
  intros H cleaned.
  destruct (parser_query_response_cleaned response num_queries lines H) as [E1 E2].
  fold cleaned in E2. split; [exact E1|].
  eexists. split; [exact E2|]. unfold halve_if_doubled. split; intros Hlen.
  - apply Z.eqb_eq in Hlen. rewrite Hlen. split; [reflexivity|]. split.
    + rewrite length_map. apply Z.eqb_eq in Hlen.
      rewrite (evens_length cleaned (Z.to_nat num_queries)); lia.
    + intros i. rewrite nth_error_map. now rewrite evens_nth_error.
  - apply Z.eqb_neq in Hlen. rewrite Hlen. split; [reflexivity|].
    now rewrite length_map.
Qed.

Lemma parser_query_response_halving_witness :
  let response := $"<queries>" ++ newline ++ $"a" ++ newline ++ $"b" ++ newline
                  ++ $"</queries>" in
  parsed_queries response = Ok [$"a"; $"b"] /\
  parser_query_response response 1 = Ok [$"a"] /\
  parser_query_response response 5 = Ok [$"a"; $"b"].
Proof.
  intros response.
  assert (H : parsed_queries response = Ok [$"a"; $"b"]) by (vm_compute; reflexivity).
  split; [exact H|].
  destruct (parser_query_response_halving response 1 _ H) as (_ & qs1 & E1 & H1 & _).
  destruct (parser_query_response_halving response 5 _ H) as (_ & qs5 & E5 & _ & H5).
  destruct (H1 eq_refl) as [-> _].
  destruct H5 as [-> _]; [discriminate|].
  split; assumption.
Defined.

(** C6: every query the parser returns comes from a line that survived the
    empty-line filter, has no double quote in it and no text matching
    [<...>]; and a line that begins with digits followed by [. ] gives the
    query made from the text after this prefix, so that [1. foo] becomes
    [foo]. *)
Theorem parser_query_response_clean (response : pystr) (num_queries : Z)
  (qs : list pystr) :
  parser_query_response response num_queries = Ok qs ->
  (exists lines, parsed_queries response = Ok lines /\
                 Forall (fun l => l <> []) lines /\
                 qs = map query_of_line (halve_if_doubled num_queries lines)) /\
  (forall q, In q qs -> ~ In dquote q /\ ~ has_tag q) /\
  (forall ds rest, ds <> [] -> Forall (fun c => isdigit c = true) ds ->
                   query_of_line (ds ++ $". " ++ rest) = final_query rest) /\
  query_of_line $"1. foo" = $"foo".
Proof.
  intros H. apply parser_query_response_inv in H. destruct H as (lines & E & ->).
  split; [|split; [|split]].
  - exists lines. split; [assumption|]. split; [|reflexivity].
    now apply parsed_queries_nonempty in E.
  - intros q Hq. apply in_map_iff in Hq. destruct Hq as (l & <- & _).
    apply final_query_clean.
  - apply query_of_line_ordinal.
  - vm_compute. reflexivity.
Qed.

Lemma parser_query_response_clean_witness :
  let response := $"<queries>" ++ newline ++ $"1. <q>foo</q>" ++ newline
                  ++ $"</queries>" in
  parser_query_response response NUM_QUERIES = Ok [$"foo"] /\
  ~ In dquote $"foo" /\ ~ has_tag $"foo".
Proof.
  intros response.
  assert (H : parser_query_response response NUM_QUERIES = Ok [$"foo"])
    by (vm_compute; reflexivity).
  split; [exact H|].
  destruct (parser_query_response_clean response NUM_QUERIES _ H)
    as (_ & Hclean & _).
  apply Hclean. now left.
Defined.

(** C10, as amended: a surviving line that begins with a digit and has no
    [. ] in it becomes the empty string; no filter runs after this, so the
    parser returns one query for every line that the doubling rule keeps,
    and the empty string is among them whenever the line is kept. *)
Theorem digit_line_without_separator (response : pystr) (num_queries : Z)
  (lines : list pystr) (line : pystr) (c : ascii) (r : pystr) :
  parsed_queries response = Ok lines ->
  In line (halve_if_doubled num_queries lines) ->
  line = c :: r -> isdigit c = true -> ~ occurs $". " line ->
  enhance_query line = Ok [] /\ query_of_line line = [] /\
  exists qs, parser_query_response response num_queries = Ok qs /\
             length qs = length (halve_if_doubled num_queries lines) /\
             In [] qs.
Proof.
  intros H Hin Hline Hc Hno.
  destruct (query_of_line_no_separator line c r Hline Hc Hno) as [E1 E2].
  split; [exact E1|]. split; [exact E2|].
  eexists. split; [apply (parser_query_response_lines _ _ _ H)|].
  split; [apply length_map|].
  rewrite <- E2. now apply in_map.
Qed.

Lemma digit_line_without_separator_witness :
  let response := $"<queries>" ++ newline ++ $"foo" ++ newline
                  ++ $"2024 election results" ++ newline ++ $"</queries>" in
  parser_query_response response NUM_QUERIES = Ok [$"foo"; []] /\
  enhance_query $"2024 election results" = Ok [] /\
  query_of_line $"2024 election results" = [].
Proof.
  intros response.
  assert (H : parsed_queries response = Ok [$"foo"; $"2024 election results"])
    by (vm_compute; reflexivity).
  assert (Hin : In $"2024 election results"
                   (halve_if_doubled NUM_QUERIES [$"foo"; $"2024 election results"]))
    by (vm_compute; tauto).
  assert (Hno : ~ occurs $". " $"2024 election results").
  { apply cut_none. vm_compute. reflexivity. }
  destruct (digit_line_without_separator response NUM_QUERIES _
              $"2024 election results" "2"%char $"024 election results"
              H Hin eq_refl eq_refl Hno) as (E1 & E2 & _).
  split; [vm_compute; reflexivity|]. split; assumption.
Defined.

(** C10 as stated fails when the doubling rule drops the line: with
    [num_queries = 1] and the two lines [foo] and [2024 election results],
    the second becomes the empty string and stands at index 1, which
    [enhanced_queries[::2]] leaves out; no empty string is returned. *)
Lemma digit_line_dropped_counterexample :
  let response := $"<queries>" ++ newline ++ $"foo" ++ newline
                  ++ $"2024 election results" ++ newline ++ $"</queries>" in
  parsed_queries response = Ok [$"foo"; $"2024 election results"] /\
  enhance_loop [$"foo"; $"2024 election results"] [] = Ok [$"foo"; []] /\
  parser_query_response response 1 = Ok [$"foo"] /\
  ~ In [] [$"foo"].
Proof.
  cbv zeta. repeat split; try (vm_compute; reflexivity).
  intros [H|[]]. discriminate H.
Qed.

(** ** The query stage *)

Section QueryStageProperties.

Variable T : Type.
Variable client : Request T -> result Message.

(** What [multi_queries] returns when nothing raises. *)
Lemma multi_queries_ok (prompt engine : pystr) (num_queries : Z)
  (counter_callback : option (callback)) (temperature : T) (max_tokens : Z)
  (queries : list pystr) (cb : option callback) :
  multi_queries client prompt engine num_queries counter_callback
    temperature max_tokens = Ok (queries, cb) ->
  cb = counter_callback /\
  exists response block parsed,
    client (mkRequest engine (URL_QUERY_PROMPT prompt num_queries)
              SYSTEM_PROMPT temperature max_tokens) = Ok response /\
    item (msg_content response) 0 = Ok block /\
    parser_query_response block num_queries = Ok parsed /\
    queries = parsed ++ [prompt].
Proof.
  unfold multi_queries, bind.
  destruct (client _) as [response|] eqn:Ec; [|discriminate].
  destruct (match counter_callback with Some cb0 => _ | None => _ end);
    [|discriminate].
  destruct (item (msg_content response) 0) as [block|] eqn:Eb; [|discriminate].
  destruct (parser_query_response block num_queries) as [parsed|] eqn:Ep;
    [|discriminate].
  intros H. injection H as <- <-. split; [reflexivity|].
  exists response, block, parsed. auto.
Qed.

(** C4: for every question, whatever the model and the counter callback do,
    the query stage yields a non-empty list of queries whose last element
    is the question itself, and hands the counter callback on.  When the
    model answers, the callback (if there is one) returns, the answer has
    a first content block and the parser accepts this block, then
    [multi_queries] returns the queries parsed from this very block
    followed by the question, and these are the queries of the stage.
    When the model call raises, or the callback, or the content has no
    block, or the parser raises on the first block, [multi_queries] raises
    and the queries of the stage are the question alone. *)
Theorem generate_queries_keeps_question (prompt engine : pystr)
  (num_queries : Z) (counter_callback : option callback) (temperature : T)
  (max_tokens : Z) :
  let request := mkRequest engine (URL_QUERY_PROMPT prompt num_queries)
                   SYSTEM_PROMPT temperature max_tokens in
  let outcome := multi_queries client prompt engine num_queries
                   counter_callback temperature max_tokens in
  let stage := generate_queries client prompt engine num_queries
                 counter_callback temperature max_tokens in
  fst stage <> [] /\
  last (fst stage) [] = prompt /\
  snd stage = counter_callback /\
  (forall response block parsed,
     client request = Ok response ->
     (forall cb, counter_callback = Some cb ->
        cb (msg_input_tokens response) (msg_output_tokens response) engine
        = Ok tt) ->
     item (msg_content response) 0 = Ok block ->
     parser_query_response block num_queries = Ok parsed ->
     outcome = Ok (parsed ++ [prompt], counter_callback) /\
     fst stage = parsed ++ [prompt]) /\
  ((exists e, client request = Raise e) \/
   (exists response,
      client request = Ok response /\
      ((exists cb e,
          counter_callback = Some cb /\
          cb (msg_input_tokens response) (msg_output_tokens response) engine
          = Raise e) \/
       (exists e, item (msg_content response) 0 = Raise e) \/
       (exists block e,
          item (msg_content response) 0 = Ok block /\
          parser_query_response block num_queries = Raise e))) ->
   (exists e, outcome = Raise e) /\ fst stage = [prompt]) /\
  match outcome with
  | Ok (queries, cb) => stage = (queries, cb)
  | Raise _ => stage = ([prompt], counter_callback)
  end.
Proof.
  intros request outcome stage.
  assert (Hstage : match outcome with
                   | Ok (queries, cb) => stage = (queries, cb)
                   | Raise _ => stage = ([prompt], counter_callback)
                   end).
  { unfold stage, generate_queries, try_except. fold outcome.
    destruct outcome as [[queries cb]|e]; reflexivity. }
  assert (Hok : forall response block parsed,
            client request = Ok response ->
            (forall cb, counter_callback = Some cb ->
               cb (msg_input_tokens response) (msg_output_tokens response)
                  engine = Ok tt) ->
            item (msg_content response) 0 = Ok block ->
            parser_query_response block num_queries = Ok parsed ->
            outcome = Ok (parsed ++ [prompt], counter_callback)).
  { intros response block parsed Hc Hcb Hb Hp.
    unfold outcome, multi_queries. fold request. rewrite Hc. cbn [bind].
    destruct counter_callback as [cb|].
    - rewrite (Hcb cb eq_refl). cbn [bind]. rewrite Hb. cbn [bind].
      rewrite Hp. reflexivity.
    - cbn [bind]. rewrite Hb. cbn [bind]. rewrite Hp. reflexivity. }
  assert (Hraise :
            (exists e, client request = Raise e) \/
            (exists response,
               client request = Ok response /\
               ((exists cb e,
                   counter_callback = Some cb /\
                   cb (msg_input_tokens response) (msg_output_tokens response)
                      engine = Raise e) \/
                (exists e, item (msg_content response) 0 = Raise e) \/
                (exists block e,
                   item (msg_content response) 0 = Ok block /\
                   parser_query_response block num_queries = Raise e))) ->
            exists e, outcome = Raise e).
  { unfold outcome, multi_queries. fold request.
    intros [(e & Hc)|(response & Hc & H)]; rewrite Hc; cbn [bind];
      [now exists e|].
    destruct H as [(cb & e & -> & Hcb)|H].
    - rewrite Hcb. cbn [bind]. now exists e.
    - destruct (match counter_callback with
                | Some cb => _
                | None => Ok tt
                end) as [[]|e0]; cbn [bind]; [|now exists e0].
      destruct H as [(e & Hb)|(block & e & Hb & Hp)]; rewrite Hb; cbn [bind];
        [now exists e|].
      rewrite Hp. cbn [bind]. now exists e. }
  assert (Hlast : exists init, fst stage = init ++ [prompt]).
  { destruct outcome as [[queries cb]|e] eqn:E.
    - unfold outcome in E. apply multi_queries_ok in E.
      destruct E as (_ & response & block & parsed & _ & _ & _ & ->).
      rewrite Hstage. now exists parsed.
    - rewrite Hstage. now exists []. }
  split; [|split; [|split; [|split; [|split]]]].
  - destruct Hlast as (init & ->). now destruct init.
  - destruct Hlast as (init & ->). apply last_last.
  - destruct outcome as [[queries cb]|e] eqn:E; rewrite Hstage;
      [|reflexivity].
    unfold outcome in E. apply multi_queries_ok in E. now destruct E as [-> _].
  - intros response block parsed Hc Hcb Hb Hp.
    pose proof (Hok response block parsed Hc Hcb Hb Hp) as E.
    split; [exact E|]. rewrite E in Hstage. now rewrite Hstage.
  - intros H. destruct (Hraise H) as (e & E).
    split; [now exists e|]. rewrite E in Hstage. now rewrite Hstage.
  - exact Hstage.
Qed.

End QueryStageProperties.

(** The stage on a model that answers with two numbered queries, and on a
    model that fails. *)
Lemma generate_queries_examples :
  let answer := $"<queries>" ++ newline ++ $"1. first query" ++ newline
                ++ $"2. second query" ++ newline ++ $"</queries>" in
  let good := fun _ : Request Z => Ok (mkMessage [answer] 10 20) in
  let bad := fun _ : Request Z => Raise (OtherException $"APIError") in
  fst (generate_queries good $"Will X happen?" $"claude-3-haiku-20240307"
         NUM_QUERIES None 0%Z 1000%Z)
  = [$"first query"; $"second query"; $"Will X happen?"] /\
  fst (generate_queries bad $"Will X happen?" $"claude-3-haiku-20240307"
         NUM_QUERIES None 0%Z 1000%Z)
  = [$"Will X happen?"].
Proof. cbv zeta. split; vm_compute; reflexivity. Qed.

(** The same two models through the statement: the queries of the stage
    are the two parsed queries and then the question; with the failing
    model they are the question alone. *)
Lemma generate_queries_keeps_question_witness :
  let answer := $"<queries>" ++ newline ++ $"1. first query" ++ newline
                ++ $"2. second query" ++ newline ++ $"</queries>" in
  let good := fun _ : Request Z => Ok (mkMessage [answer] 10 20) in
  let bad := fun _ : Request Z => Raise (OtherException $"APIError") in
  parser_query_response answer NUM_QUERIES
  = Ok [$"first query"; $"second query"] /\
  fst (generate_queries good $"Will X happen?" $"claude-3-haiku-20240307"
         NUM_QUERIES None 0%Z 1000%Z)
  = [$"first query"; $"second query"] ++ [$"Will X happen?"] /\
  fst (generate_queries bad $"Will X happen?" $"claude-3-haiku-20240307"
         NUM_QUERIES None 0%Z 1000%Z)
  = [$"Will X happen?"].
Proof.
  intros answer good bad.
  assert (Hp : parser_query_response answer NUM_QUERIES
               = Ok [$"first query"; $"second query"])
    by (vm_compute; reflexivity).
  split; [exact Hp|]. split.
  - destruct (generate_queries_keeps_question Z good $"Will X happen?"
                $"claude-3-haiku-20240307" NUM_QUERIES None 0%Z 1000%Z)
      as (_ & _ & _ & Hok & _).
    apply (Hok (mkMessage [answer] 10 20) answer
               [$"first query"; $"second query"]).
    + reflexivity.
    + intros cb H. discriminate H.
    + reflexivity.
    + exact Hp.
  - destruct (generate_queries_keeps_question Z bad $"Will X happen?"
                $"claude-3-haiku-20240307" NUM_QUERIES None 0%Z 1000%Z)
      as (_ & _ & _ & _ & Hraise & _).
    apply Hraise. left. now exists (OtherException $"APIError").
Defined.

(** ** Extraction *)


Lemma windows_concat {A} (fuel window : nat) (l : list A) :
  (0 < window)%nat -> (length l <= fuel)%nat ->
  concat (windows fuel window l) = l.
Proof.
  intros Hw. revert l. induction fuel as [|fuel IH]; intros l Hl.
  - destruct l; [reflexivity | simpl in Hl; lia].
  - destruct l as [|x r]; [reflexivity|].
    cbn [windows concat]. rewrite IH.
    + apply firstn_skipn.
    + rewrite length_skipn. cbn [length] in *. lia.
Qed.

Lemma flat_map_concat_map {A B C} (f : B -> list C) (g : A -> B)
  (ws : list (list A)) :
  flat_map (flat_map f) (map (map g) ws) = flat_map (fun x => f (g x)) (concat ws).
Proof.
  induction ws as [|w ws IH]; simpl; [reflexivity|].
  rewrite flat_map_app, IH. f_equal.
  induction w as [|x w IHw]; simpl; [reflexivity | now rewrite IHw].
Qed.

Section ExtractionProperties.

Variable html_to_markdown : pystr -> result (option pystr).
Variable http_get : pystr -> result Response.
Variable pdf_reader : bytes -> result (list (result pystr)).
Variable submit : pystr -> nat -> option (result Response).

(** The batches are walked in order: [extract_texts] is the concatenation
    of what each url contributes. *)
Lemma extract_texts_per_url (urls : list pystr) (num_words : option Z) :
  extract_texts html_to_markdown http_get pdf_reader submit urls num_words
  = flat_map
      (fun url =>
         extract_texts_entry html_to_markdown http_get pdf_reader num_words
           (submit_retrying submit url 0 HTTP_MAX_RETIES, url))
      urls.
Proof.
  unfold extract_texts, process_in_batches.
  rewrite flat_map_concat_map. rewrite windows_concat; [reflexivity | | ].
  - unfold BATCH_WINDOW. lia.
  - lia.
Qed.



End ExtractionProperties.


(** The object that [extract_text_from_pdf] returns for a wrong content
    type is in the list that [extract_texts] returns, with the url it was
    given: the list has an entry that is not a [Document].  The filters of
    [fetch_additional_information] drop it.  When the second request is
    refused, an exception is raised in [extract_text_from_pdf] and the list
    is empty. *)
Lemma extract_texts_value_error_object :
  let u := $"http://example.org/b.pdf" in
  let out := extract_texts example_markdown html_http_get failing_pdf_reader
               example_submit [u] None in
  out = [ValueErrorObj $"URL does not point to a PDF document" (Some u)] /\
  documents out = [] /\
  filtered_docs out = [] /\
  extract_texts example_markdown refusing_http_get failing_pdf_reader
    example_submit [u] None
  = [].
Proof. cbv zeta. repeat split; vm_compute; reflexivity. Qed.

(** The HTML branch: a positive cap keeps the first [n] words, no cap
    normalizes the whitespace. *)
Lemma extract_text_words (html_to_markdown : pystr -> result (option pystr))
  (html t : pystr) :
  html_to_markdown html = Ok (Some t) ->
  (forall n, (0 < n)%Z ->
     extract_text html_to_markdown html (Some n)
     = Ok (Some (mkDocument (first_words n t) [] None))) /\
  extract_text html_to_markdown html None
  = Ok (Some (mkDocument (join $" " (split_ws t)) [] None)).
Proof.
  intros H. unfold extract_text. rewrite H. simpl bind. split; [|reflexivity].
  intros n Hn. unfold truthy, int_of.
  destruct (Z.eqb_spec n 0) as [->|_]; [lia|]. simpl negb. cbv iota.
  rewrite slice_to_firstn by lia. reflexivity.
Qed.

(** The PDF branch: a cap keeps the first [n] characters, no cap returns
    the text of the pages as it is. *)
Lemma extract_text_from_pdf_characters (http_get : pystr -> result Response)
  (pdf_reader : bytes -> result (list (result pystr)))
  (u : pystr) (response : Response) (pages : list (result pystr)) (t : pystr) :
  http_get u = Ok response -> raise_for_status response = Ok tt ->
  contains $"application/pdf" (content_type response) = true ->
  pdf_reader (content response) = Ok pages -> concat_pages pages [] = Ok t ->
  (forall n, (0 < n)%Z ->
     extract_text_from_pdf http_get pdf_reader u (Some n)
     = DocObj (mkDocument (firstn (Z.to_nat n) t) u None)) /\
  extract_text_from_pdf http_get pdf_reader u None
  = DocObj (mkDocument t u None).
Proof.
  intros H1 H2 H3 H4 H5.
  unfold extract_text_from_pdf, extract_text_from_pdf_body.
  rewrite H1. cbn [bind]. rewrite H2. cbn [bind]. rewrite H3. cbn [negb].
  rewrite H4. cbn [bind]. rewrite H5. cbn [bind try_except].
  split; [|reflexivity].
  intros n Hn. unfold truthy, int_of.
  destruct (Z.eqb_spec n 0) as [->|_]; [lia|]. simpl negb. cbv iota.
  rewrite slice_to_firstn by lia. reflexivity.
Qed.

(** C8 fails in the PDF branch.  On a PDF whose text is
    [alpha beta gamma], a cap of 2 gives the first 2 characters, [al], where
    the HTML branch gives the first 2 words, [alpha beta]; and without a cap
    the text [alpha  beta ] is returned with its double space and its
    trailing space, where the HTML branch returns [alpha beta]. *)
Theorem extract_text_from_pdf_cuts_characters :
  let u := $"http://example.org/a.pdf" in
  extract_text_from_pdf example_http_get example_pdf_reader u (Some 2%Z)
  = DocObj (mkDocument $"al" u None) /\
  extract_text example_markdown $"alpha beta gamma" (Some 2%Z)
  = Ok (Some (mkDocument $"alpha beta" [] None)) /\
  extract_text_from_pdf example_http_get spaced_pdf_reader u None
  = DocObj (mkDocument $"alpha  beta " u None) /\
  extract_text example_markdown $"alpha  beta " None
  = Ok (Some (mkDocument $"alpha beta" [] None)).
Proof. cbv zeta. repeat split; vm_compute; reflexivity. Qed.

(** ** parser_prediction_response *)

Lemma first_piece_skip (h : ascii) (sep' v t : pystr) :
  ~ In h v -> first_piece (h :: sep') (v ++ t) = v ++ first_piece (h :: sep') t.
Proof.
  intros Hv. unfold first_piece. rewrite cut_skip by assumption.
  destruct (cut (h :: sep') t) as [[b a]|]; reflexivity.
Qed.

Lemma first_piece_step (sep : pystr) (c : ascii) (r : pystr) :
  startswith sep (c :: r) = false ->
  first_piece sep (c :: r) = c :: first_piece sep r.
Proof.
  intros H. unfold first_piece. rewrite (cut_eq sep (c :: r)), H.
  destruct (cut sep r) as [[b a]|]; reflexivity.
Qed.

Lemma first_piece_here (sep rest : pystr) : first_piece sep (sep ++ rest) = [].
Proof. unfold first_piece. now rewrite cut_here. Qed.

Lemma same_length_prefix {A} (b b' x y : list A) :
  b ++ x = b' ++ y -> length b = length b' -> b = b' /\ x = y.
Proof.
  revert b'. induction b as [|c b IH]; intros [|c' b'] H L; try discriminate L.
  - now split.
  - simpl in H. injection H as -> H. simpl in L. injection L as L.
    destruct (IH b' H L) as [-> ->]. now split.
Qed.

(** [cut] at an occurrence that no other occurrence precedes. *)
Lemma cut_at_first (sep s pre rest : pystr) :
  s = pre ++ sep ++ rest ->
  (forall b a, s = b ++ sep ++ a -> (length pre <= length b)%nat) ->
  cut sep s = Some (pre, rest).
Proof.
  intros Hs Hfirst.
  destruct (cut sep s) as [[b a]|] eqn:E.
  - pose proof (cut_first sep s b a E pre rest Hs) as L1.
    pose proof (cut_some sep s b a E) as Hs'.
    pose proof (Hfirst b a Hs') as L2.
    rewrite Hs in Hs'. apply same_length_prefix in Hs'; [|lia].
    destruct Hs' as [-> Hr]. apply app_inv_head in Hr. now subst.
  - exfalso. apply (cut_none sep s E). now exists pre, rest.
Qed.

(** With a tag name, the text up to the next opening tag runs over a
    content without [<] and over the closing tag. *)
Lemma first_piece_open_tag (key v post : pystr) :
  tag_name key -> ~ In lt_char v ->
  first_piece (open_tag key) (v ++ close_tag key ++ post)
  = v ++ close_tag key ++ first_piece (open_tag key) post.
Proof.
  intros [Hk Hhd] Hv.
  change (open_tag key) with (lt_char :: key ++ $">").
  rewrite first_piece_skip by assumption. f_equal.
  change (close_tag key ++ post)
    with (lt_char :: ("/"%char :: key ++ $">") ++ post).
  rewrite first_piece_step.
  - change (close_tag key) with (lt_char :: ("/"%char :: key ++ $">")).
    cbn [app]. f_equal.
    change ("/"%char :: (key ++ $">") ++ post)
      with (("/"%char :: key ++ $">") ++ post).
    apply first_piece_skip.
    intros [H|H]; [discriminate H|].
    apply in_app_or in H. destruct H as [H|[H|[]]]; [tauto | discriminate H].
  - cbn [startswith app]. rewrite char_eqb_refl. cbn [andb].
    destruct key as [|k key']; cbn [app startswith]; [reflexivity|].
    assert (E : char_eqb k "/"%char = false).
    { apply char_eqb_neq. intros ->. now apply Hhd. }
    now rewrite E.
Qed.

Lemma prediction_keys_tag_names (key : pystr) :
  In key PREDICTION_KEYS -> tag_name key.
Proof.
  intros [<-|[<-|[<-|[<-|[]]]]]; (split; [|discriminate]);
    simpl; unfold lt_char; intuition discriminate.
Qed.

Section PredictionProperties.

Variable pyfloat : Type.
Variable float : pystr -> result pyfloat.
Variable float_repr : pyfloat -> pystr.

(** The text [float] is applied to. *)
Lemma field_value_eq (response key : pystr) :
  field_value float response key =
  match cut (open_tag key) response with
  | None => Raise IndexError
  | Some (_, after) =>
      float (strip (first_piece (close_tag key)
                      (first_piece (open_tag key) after)))
  end.
Proof.
  unfold field_value. rewrite split_item_1 by discriminate.
  destruct (cut (open_tag key) response) as [[b after]|]; [|reflexivity].
  cbn [bind]. rewrite split_item_0 by discriminate. reflexivity.
Qed.

Lemma field_value_well_formed (response key pre v post : pystr) :
  In key PREDICTION_KEYS ->
  response = pre ++ open_tag key ++ v ++ close_tag key ++ post ->
  (forall b a, response = b ++ open_tag key ++ a ->
               (length pre <= length b)%nat) ->
  ~ In lt_char v ->
  field_value float response key = float (strip v).
Proof.
  intros Hkey Hs Hfirst Hv. rewrite field_value_eq.
  rewrite (cut_at_first _ _ _ _ Hs Hfirst).
  rewrite first_piece_open_tag
    by (auto using prediction_keys_tag_names).
  change (close_tag key) with (lt_char :: "/"%char :: key ++ $">") at 1.
  rewrite first_piece_skip by assumption.
  change (lt_char :: "/"%char :: key ++ $">") with (close_tag key).
  rewrite first_piece_here, app_nil_r. reflexivity.
Qed.

Lemma field_value_absent (response key : pystr) :
  ~ occurs (open_tag key) response ->
  field_value float response key = Raise IndexError.
Proof.
  intros H. rewrite field_value_eq.
  destruct (cut (open_tag key) response) as [[b a]|] eqn:E; [|reflexivity].
  exfalso. apply H. apply cut_occurs. eauto.
Qed.

(** A text without the first character of the separator has one piece. *)
Lemma first_piece_absent (h : ascii) (sep' v : pystr) :
  ~ In h v -> first_piece (h :: sep') v = v.
Proof.
  intros Hv. rewrite <- (app_nil_r v) at 1.
  rewrite first_piece_skip by assumption.
  unfold first_piece. rewrite cut_eq. cbn [startswith]. apply app_nil_r.
Qed.

(** The value text is what [float] is applied to, once stripped. *)
Lemma field_value_text (response key v : pystr) :
  In key PREDICTION_KEYS -> value_text response key v ->
  field_value float response key = float (strip v).
Proof.
  intros Hkey (pre & rest & Hs & Hfirst & Hv & Hrest).
  destruct Hrest as [->|[Hc|Ho]].
  - rewrite field_value_eq, (cut_at_first _ _ _ _ Hs Hfirst), app_nil_r.
    change (open_tag key) with (lt_char :: key ++ $">").
    rewrite first_piece_absent by assumption.
    change (close_tag key) with (lt_char :: "/"%char :: key ++ $">").
    now rewrite first_piece_absent by assumption.
  - apply startswith_inv in Hc. rewrite Hc in Hs.
    exact (field_value_well_formed response key pre v _ Hkey Hs Hfirst Hv).
  - apply startswith_inv in Ho. rewrite Ho in Hs.
    rewrite field_value_eq, (cut_at_first _ _ _ _ Hs Hfirst).
    change (open_tag key) with (lt_char :: key ++ $">") at 1.
    rewrite first_piece_skip by assumption.
    change (lt_char :: key ++ $">") with (open_tag key).
    rewrite first_piece_here, app_nil_r.
    change (close_tag key) with (lt_char :: "/"%char :: key ++ $">").
    now rewrite first_piece_absent by assumption.
Qed.

(** After an opening tag, a text without [<] holds no closing tag. *)
Lemma close_tag_absent (key v : pystr) :
  tag_name key -> ~ In lt_char v ->
  ~ occurs (close_tag key) (open_tag key ++ v).
Proof.
  intros [Hk Hhd] Hv (b & a & H).
  change (open_tag key) with (lt_char :: key ++ $">") in H.
  change (close_tag key) with (lt_char :: "/"%char :: key ++ $">") in H.
  assert (Hc : count_occ ascii_dec ((lt_char :: key ++ $">") ++ v) lt_char
               = 1%nat).
  { cbn [app count_occ].
    destruct (ascii_dec lt_char lt_char) as [_|n]; [|now destruct n].
    rewrite !count_occ_app.
    rewrite (proj1 (count_occ_not_In ascii_dec _ _) Hk).
    rewrite (proj1 (count_occ_not_In ascii_dec _ _) Hv). reflexivity. }
  rewrite H in Hc.
  destruct b as [|x b'].
  - cbn [app] in H. injection H as H.
    destruct key as [|k key']; cbn [app] in H.
    + discriminate H.
    + injection H as -> _. now apply Hhd.
  - cbn [app] in H. injection H as <- _.
    cbn [app count_occ] in Hc.
    destruct (ascii_dec lt_char lt_char) as [_|n]; [|now destruct n].
    rewrite count_occ_app in Hc. cbn [app count_occ] in Hc.
    destruct (ascii_dec lt_char lt_char) as [_|n]; [|now destruct n]. lia.
Qed.

(** The loop stops at the first key whose value cannot be read. *)
Lemma parse_fields_first_error (response : pystr) (before : list pystr)
  (key : pystr) (after : list pystr) (results : dict pyfloat) (e : exn) :
  (forall k, In k before -> exists f, field_value float response k = Ok f) ->
  field_value float response key = Raise e ->
  parse_fields float response (before ++ key :: after) results
  = Raise (ValueError ($"Error parsing " ++ key)).
Proof.
  revert results. induction before as [|k r IH]; intros results Hb He.
  - cbn [app parse_fields]. now rewrite He.
  - cbn [app parse_fields]. destruct (Hb k (or_introl eq_refl)) as [f Hf].
    rewrite Hf. apply IH; [|assumption]. intros k' Hk'. apply Hb. now right.
Qed.

Lemma parse_fields_all (response : pystr) (f1 f2 f3 f4 : pyfloat) :
  field_value float response $"p_yes" = Ok f1 ->
  field_value float response $"p_no" = Ok f2 ->
  field_value float response $"info_utility" = Ok f3 ->
  field_value float response $"confidence" = Ok f4 ->
  parser_prediction_response float float_repr response
  = Ok (json_dumps float_repr
          [($"p_yes", f1); ($"p_no", f2); ($"info_utility", f3);
           ($"confidence", f4)]).
Proof.
  intros H1 H2 H3 H4. unfold parser_prediction_response.
  unfold PREDICTION_KEYS. cbn [parse_fields]. rewrite H1. cbn [parse_fields].
  rewrite H2. cbn [parse_fields]. rewrite H3. cbn [parse_fields].
  rewrite H4. reflexivity.
Qed.

(** C9, as amended.  The reading rule, for every response and key: the
    value of the key is [float] of the stripped text that follows the
    first opening tag, up to the next opening tag of the key, the closing
    tag, or the end of the response; without an opening tag there is no
    value ([IndexError]).  So the value text of a key, free of [<] and
    ended by the closing tag, by the next opening tag or by the end of the
    response, is read whether the closing tag is there or not.  When the
    four value texts are parseable the result is the JSON text of the
    mapping of the four keys, in the order of the loop, to these floats.
    When the opening tag of a key is absent, or its value text is not
    parseable, and the keys before it are read, parsing raises
    [ValueError] naming this key. *)
Theorem parser_prediction_response_fields (response : pystr) :
  (forall f1 f2 f3 f4,
     field_value float response $"p_yes" = Ok f1 ->
     field_value float response $"p_no" = Ok f2 ->
     field_value float response $"info_utility" = Ok f3 ->
     field_value float response $"confidence" = Ok f4 ->
     parser_prediction_response float float_repr response
     = Ok (json_dumps float_repr
             [($"p_yes", f1); ($"p_no", f2); ($"info_utility", f3);
              ($"confidence", f4)])) /\
  (forall key pre v post,
     In key PREDICTION_KEYS ->
     response = pre ++ open_tag key ++ v ++ close_tag key ++ post ->
     (forall b a, response = b ++ open_tag key ++ a ->
                  (length pre <= length b)%nat) ->
     ~ In lt_char v ->
     field_value float response key = float (strip v)) /\
  (forall key, ~ occurs (open_tag key) response ->
               field_value float response key = Raise IndexError) /\
  (forall before key after e,
     PREDICTION_KEYS = before ++ key :: after ->
     (forall k, In k before -> exists f, field_value float response k = Ok f) ->
     field_value float response key = Raise e ->
     parser_prediction_response float float_repr response
     = Raise (ValueError ($"Error parsing " ++ key))) /\
  (forall key,
     field_value float response key =
     match cut (open_tag key) response with
     | None => Raise IndexError
     | Some (_, after) =>
         float (strip (first_piece (close_tag key)
                         (first_piece (open_tag key) after)))
     end) /\
  (forall key v,
     In key PREDICTION_KEYS -> value_text response key v ->
     field_value float response key = float (strip v)) /\
  (forall key pre v,
     In key PREDICTION_KEYS ->
     response = pre ++ open_tag key ++ v ->
     (forall b a, response = b ++ open_tag key ++ a ->
                  (length pre <= length b)%nat) ->
     ~ In lt_char v ->
     ~ occurs (close_tag key) (open_tag key ++ v) /\
     field_value float response key = float (strip v)) /\
  (forall v1 v2 v3 v4 f1 f2 f3 f4,
     value_text response $"p_yes" v1 -> float (strip v1) = Ok f1 ->
     value_text response $"p_no" v2 -> float (strip v2) = Ok f2 ->
     value_text response $"info_utility" v3 -> float (strip v3) = Ok f3 ->
     value_text response $"confidence" v4 -> float (strip v4) = Ok f4 ->
     parser_prediction_response float float_repr response
     = Ok (json_dumps float_repr
             [($"p_yes", f1); ($"p_no", f2); ($"info_utility", f3);
              ($"confidence", f4)])) /\
  (forall before key after,
     PREDICTION_KEYS = before ++ key :: after ->
     (forall k, In k before ->
        exists v f, value_text response k v /\ float (strip v) = Ok f) ->
     (~ occurs (open_tag key) response \/
      exists v e, value_text response key v /\ float (strip v) = Raise e) ->
     parser_prediction_response float float_repr response
     = Raise (ValueError ($"Error parsing " ++ key))).
Proof.
  assert (Herr : forall before key after e,
             PREDICTION_KEYS = before ++ key :: after ->
             (forall k, In k before ->
                exists f, field_value float response k = Ok f) ->
             field_value float response key = Raise e ->
             parser_prediction_response float float_repr response
             = Raise (ValueError ($"Error parsing " ++ key))).
  { intros before key after e Hk Hb He. unfold parser_prediction_response.
    rewrite Hk. rewrite (parse_fields_first_error response before key after
                           [] e Hb He). reflexivity. }
  split; [|split; [|split; [|split; [|split; [|split; [|split; [|split]]]]]]].
  - apply parse_fields_all.
  - apply field_value_well_formed.
  - apply field_value_absent.
  - exact Herr.
  - apply field_value_eq.
  - apply field_value_text.
  - intros key pre v Hkey Hs Hfirst Hv. split.
    + apply close_tag_absent; [|assumption].
      now apply prediction_keys_tag_names.
    + apply field_value_text; [assumption|].
      exists pre, []. rewrite app_nil_r. auto.
  - intros v1 v2 v3 v4 f1 f2 f3 f4 T1 F1 T2 F2 T3 F3 T4 F4.
    apply parse_fields_all.
    + rewrite (field_value_text response $"p_yes" v1); [exact F1| |exact T1].
      simpl; tauto.
    + rewrite (field_value_text response $"p_no" v2); [exact F2| |exact T2].
      simpl; tauto.
    + rewrite (field_value_text response $"info_utility" v3);
        [exact F3| |exact T3].
      simpl; tauto.
    + rewrite (field_value_text response $"confidence" v4);
        [exact F4| |exact T4].
      simpl; tauto.
  - intros before key after Hk Hb Hbad.
    assert (Hkeys : forall k, In k before -> In k PREDICTION_KEYS).
    { intros k Hin. rewrite Hk. apply in_or_app. now left. }
    assert (Hkey : In key PREDICTION_KEYS).
    { rewrite Hk. apply in_or_app. right. now left. }
    assert (Hb' : forall k, In k before ->
                    exists f, field_value float response k = Ok f).
    { intros k Hin. destruct (Hb k Hin) as (v & f & Tv & Fv).
      exists f. now rewrite (field_value_text response k v (Hkeys k Hin) Tv). }
    destruct Hbad as [Habs|(v & e & Tv & Fv)].
    + apply (Herr before key after IndexError Hk Hb').
      now apply field_value_absent.
    + apply (Herr before key after e Hk Hb').
      now rewrite (field_value_text response key v Hkey Tv).
Qed.

End PredictionProperties.

(** The value text of a key, from the cut at its first opening tag. *)
Lemma value_text_cut (response key pre v rest : pystr) :
  cut (open_tag key) response = Some (pre, v ++ rest) ->
  ~ In lt_char v ->
  rest = [] \/ startswith (close_tag key) rest = true \/
  startswith (open_tag key) rest = true ->
  value_text response key v.
Proof.
  intros Hc Hv Hrest. exists pre, rest. split; [|split; [|split]].
  - exact (cut_some _ _ _ _ Hc).
  - intros b a H. exact (cut_first _ _ _ _ Hc b a H).
  - exact Hv.
  - exact Hrest.
Qed.

(** The response of the specification gives the four values; without the
    [confidence] tags the error names [confidence]; and when only the
    closing tag of [confidence] is missing the four values are given. *)
Lemma parser_prediction_response_fields_witness :
  let response :=
    $"<p_yes>0.7</p_yes><p_no>0.3</p_no><info_utility>0.8</info_utility><confidence>0.9</confidence>" in
  let missing :=
    $"<p_yes>0.7</p_yes><p_no>0.3</p_no><info_utility>0.8</info_utility>" in
  let unclosed :=
    $"<p_yes>0.7</p_yes><p_no>0.3</p_no><info_utility>0.8</info_utility><confidence>0.9" in
  parser_prediction_response probability_literal (fun f => f) response
  = Ok (json_dumps (fun f => f)
          [($"p_yes", $"0.7"); ($"p_no", $"0.3"); ($"info_utility", $"0.8");
           ($"confidence", $"0.9")]) /\
  parser_prediction_response probability_literal (fun f => f) missing
  = Raise (ValueError $"Error parsing confidence") /\
  value_text unclosed $"confidence" $"0.9" /\
  parser_prediction_response probability_literal (fun f => f) unclosed
  = Ok (json_dumps (fun f => f)
          [($"p_yes", $"0.7"); ($"p_no", $"0.3"); ($"info_utility", $"0.8");
           ($"confidence", $"0.9")]).
Proof.
  intros response missing unclosed.
  assert (Hv : forall v : pystr,
            forallb (fun c => negb (char_eqb c lt_char)) v = true ->
            ~ In lt_char v).
  { intros v H Hin. rewrite forallb_forall in H. specialize (H _ Hin).
    rewrite char_eqb_refl in H. discriminate H. }
  assert (T1 : value_text unclosed $"p_yes" $"0.7").
  { apply (value_text_cut unclosed $"p_yes" []
             $"0.7" $"</p_yes><p_no>0.3</p_no><info_utility>0.8</info_utility><confidence>0.9").
    - vm_compute. reflexivity.
    - apply Hv. vm_compute. reflexivity.
    - right. left. vm_compute. reflexivity. }
  assert (T2 : value_text unclosed $"p_no" $"0.3").
  { apply (value_text_cut unclosed $"p_no" $"<p_yes>0.7</p_yes>"
             $"0.3" $"</p_no><info_utility>0.8</info_utility><confidence>0.9").
    - vm_compute. reflexivity.
    - apply Hv. vm_compute. reflexivity.
    - right. left. vm_compute. reflexivity. }
  assert (T3 : value_text unclosed $"info_utility" $"0.8").
  { apply (value_text_cut unclosed $"info_utility"
             $"<p_yes>0.7</p_yes><p_no>0.3</p_no>"
             $"0.8" $"</info_utility><confidence>0.9").
    - vm_compute. reflexivity.
    - apply Hv. vm_compute. reflexivity.
    - right. left. vm_compute. reflexivity. }
  assert (T4 : value_text unclosed $"confidence" $"0.9").
  { apply (value_text_cut unclosed $"confidence"
             $"<p_yes>0.7</p_yes><p_no>0.3</p_no><info_utility>0.8</info_utility>"
             $"0.9" []).
    - vm_compute. reflexivity.
    - apply Hv. vm_compute. reflexivity.
    - now left. }
  split; [|split; [|split]].
  - destruct (parser_prediction_response_fields pystr probability_literal
                (fun f => f) response) as (Hok & _).
    apply Hok; vm_compute; reflexivity.
  - destruct (parser_prediction_response_fields pystr probability_literal
                (fun f => f) missing) as (_ & _ & Habs & Herr & _).
    apply (Herr [$"p_yes"; $"p_no"; $"info_utility"] $"confidence" []
             IndexError eq_refl).
    + intros k [<-|[<-|[<-|[]]]]; eexists; vm_compute; reflexivity.
    + apply Habs. apply cut_none. vm_compute. reflexivity.
  - exact T4.
  - destruct (parser_prediction_response_fields pystr probability_literal
                (fun f => f) unclosed)
      as (_ & _ & _ & _ & _ & _ & _ & Hall & _).
    apply (Hall $"0.7" $"0.3" $"0.8" $"0.9" $"0.7" $"0.3" $"0.8" $"0.9");
      try assumption; vm_compute; reflexivity.
Defined.

(** C9 as stated fails in both directions.  A response that has the four
    well-formed tag pairs, and mentions [<p_yes>] before them, raises an
    error naming [p_yes]: the value is read after the first opening tag.
    A response whose [confidence] value lacks its closing tag is parsed
    without an error: the value runs to the end of the text. *)
Lemma parser_prediction_response_counterexample :
  let stray :=
    $"The tag <p_yes> holds the probability. <p_yes>0.7</p_yes><p_no>0.3</p_no><info_utility>0.8</info_utility><confidence>0.9</confidence>" in
  let unclosed :=
    $"<p_yes>0.7</p_yes><p_no>0.3</p_no><info_utility>0.8</info_utility><confidence>0.9" in
  occurs $"<p_yes>0.7</p_yes>" stray /\
  parser_prediction_response probability_literal (fun f => f) stray
  = Raise (ValueError $"Error parsing p_yes") /\
  ~ occurs $"</confidence>" unclosed /\
  parser_prediction_response probability_literal (fun f => f) unclosed
  = Ok (json_dumps (fun f => f)
          [($"p_yes", $"0.7"); ($"p_no", $"0.3"); ($"info_utility", $"0.8");
           ($"confidence", $"0.9")]).
Proof.
  cbv zeta. split; [|split; [|split]].
  - apply cut_occurs. eexists. eexists. vm_compute. reflexivity.
  - vm_compute. reflexivity.
  - apply cut_none. vm_compute. reflexivity.
  - vm_compute. reflexivity.
Qed.

(** * Further properties of the code *)

(** ** count_words *)

Lemma split_ws_from_space (a b cur : pystr) (c : ascii) :
  isspace c = true ->
  split_ws_from cur (a ++ c :: b) = split_ws_from cur a ++ split_ws b.
Proof.
  intros Hc. revert cur. induction a as [|x a IH]; intros cur.
  - cbn [app split_ws_from]. rewrite Hc. destruct cur; reflexivity.
  - cbn [app split_ws_from]. destruct (isspace x).
    + destruct cur; [apply IH|]. rewrite IH. reflexivity.
    + apply IH.
Qed.

(** X1: the words of two texts put together with a whitespace character
    between them are the words of the first followed by the words of the
    second: word counts add up, and a text of whitespace only has no
    word. *)
Theorem count_words_additive (a b : pystr) (c : ascii) :
  isspace c = true ->
  count_words (a ++ c :: b) = (count_words a + count_words b)%Z /\
  (Forall (fun x => isspace x = true) a -> count_words a = 0%Z).
Proof.
  intros Hc. split.
  - unfold count_words. unfold split_ws at 1.
    rewrite split_ws_from_space by assumption.
    rewrite length_app. unfold split_ws. lia.
  - intros Ha. unfold count_words, split_ws.
    induction a as [|x a IH]; [reflexivity|].
    inversion Ha as [|? ? Hx Ha']; subst. cbn [split_ws_from]. rewrite Hx.
    now apply IH.
Qed.

Lemma count_words_additive_witness :
  count_words ($"two words" ++ newline_char :: $"and three more") = 5%Z.
Proof.
  destruct (count_words_additive $"two words" $"and three more" newline_char
              eq_refl) as [E _].
  rewrite E. vm_compute. reflexivity.
Defined.

(** ** extract_question *)

Lemma findall_quoted_from_none (s : pystr) :
  ~ In dquote s -> findall_quoted_from None s = [].
Proof.
  induction s as [|c r IH]; intros H; [reflexivity|].
  cbn [findall_quoted_from].
  assert (E : char_eqb c dquote = false).
  { apply char_eqb_neq. intros ->. apply H. now left. }
  rewrite E. cbn [andb]. apply IH. intros Hin. apply H. now right.
Qed.

Lemma findall_quoted_from_skip (pre s : pystr) :
  ~ In dquote pre ->
  findall_quoted_from None (pre ++ s) = findall_quoted_from None s.
Proof.
  induction pre as [|c r IH]; intros H; [reflexivity|].
  cbn [app findall_quoted_from].
  assert (E : char_eqb c dquote = false).
  { apply char_eqb_neq. intros ->. apply H. now left. }
  rewrite E. cbn [andb]. apply IH. intros Hin. apply H. now right.
Qed.

Lemma closes_group (q post : pystr) :
  ~ In dquote q -> ~ In newline_char q -> closes (q ++ dquote :: post) = true.
Proof.
  induction q as [|c r IH]; intros Hq Hn.
  - cbn [app closes]. now rewrite char_eqb_refl.
  - cbn [app closes].
    assert (E1 : char_eqb c dquote = false).
    { apply char_eqb_neq. intros ->. apply Hq. now left. }
    assert (E2 : char_eqb c newline_char = false).
    { apply char_eqb_neq. intros ->. apply Hn. now left. }
    rewrite E1, E2. apply IH; intros Hin; [apply Hq | apply Hn]; now right.
Qed.

Lemma findall_quoted_from_group (q post group : pystr) :
  ~ In dquote q ->
  findall_quoted_from (Some group) (q ++ dquote :: post)
  = (group ++ q) :: findall_quoted_from None post.
Proof.
  revert group. induction q as [|c r IH]; intros group Hq.
  - cbn [app findall_quoted_from]. rewrite char_eqb_refl. now rewrite app_nil_r.
  - cbn [app findall_quoted_from].
    assert (E : char_eqb c dquote = false).
    { apply char_eqb_neq. intros ->. apply Hq. now left. }
    rewrite E. rewrite IH by (intros Hin; apply Hq; now right).
    now rewrite <- app_assoc.
Qed.

(** No group that [findall] returns has a double quote in it. *)
Lemma findall_quoted_from_groups (s : pystr) (inside : option pystr) :
  (forall group, inside = Some group -> ~ In dquote group) ->
  Forall (fun g => ~ In dquote g) (findall_quoted_from inside s).
Proof.
  revert inside. induction s as [|c r IH]; intros inside Hin; [constructor|].
  cbn [findall_quoted_from]. destruct inside as [group|].
  - destruct (char_eqb c dquote) eqn:E.
    + constructor; [now apply Hin | apply IH; discriminate].
    + apply IH. intros g Hg. injection Hg as <-. intros H.
      apply in_app_or in H. destruct H as [H|[H|[]]].
      * now apply (Hin group).
      * subst. rewrite char_eqb_refl in E. discriminate.
  - destruct (char_eqb c dquote && closes r); apply IH.
    + intros g Hg. injection Hg as <-. intros [].
    + discriminate.
Qed.

(** X2: a prompt without any double quote is its own question. *)
Theorem extract_question_unquoted (prompt : pystr) :
  ~ In dquote prompt -> extract_question prompt = prompt.
Proof.
  intros H. unfold extract_question, findall_quoted.
  now rewrite findall_quoted_from_none.
Qed.

Lemma extract_question_unquoted_witness :
  extract_question $"Will X happen by 2025?" = $"Will X happen by 2025?".
Proof.
  apply extract_question_unquoted. vm_compute. intuition discriminate.
Defined.

(** X3: the question is the text between the first double quote of the
    prompt and the next one, when no line ends between them. *)
Theorem extract_question_first_quoted (pre q post : pystr) :
  ~ In dquote pre -> ~ In dquote q -> ~ In newline_char q ->
  extract_question (pre ++ dquote :: q ++ dquote :: post) = q.
Proof.
  intros Hpre Hq Hn. unfold extract_question, findall_quoted.
  rewrite findall_quoted_from_skip by assumption.
  cbn [findall_quoted_from]. rewrite char_eqb_refl.
  rewrite closes_group by assumption. cbn [andb].
  rewrite findall_quoted_from_group by assumption. reflexivity.
Qed.

Lemma extract_question_first_quoted_witness :
  extract_question ($"Please answer: " ++ dquote :: $"Will X happen?"
                    ++ dquote :: $" Use the tags.")
  = $"Will X happen?".
Proof.
  apply (extract_question_first_quoted $"Please answer: " $"Will X happen?"
           $" Use the tags."); vm_compute; intuition discriminate.
Defined.

(** X4: extracting the question twice is extracting it once; and whenever
    the prompt loses anything, what is left has no double quote. *)
Theorem extract_question_idempotent (prompt : pystr) :
  extract_question (extract_question prompt) = extract_question prompt /\
  (extract_question prompt = prompt \/ ~ In dquote (extract_question prompt)).
Proof.
  assert (H : extract_question prompt = prompt
              \/ ~ In dquote (extract_question prompt)).
  { unfold extract_question, findall_quoted.
    pose proof (findall_quoted_from_groups prompt None) as Hg.
    destruct (findall_quoted_from None prompt) as [|g gs]; [now left|].
    right. cbn. assert (Hf : Forall (fun g0 => ~ In dquote g0) (g :: gs))
      by (apply Hg; discriminate).
    now inversion Hf. }
  split; [|exact H].
  destruct H as [E|Hq]; [now rewrite E|].
  unfold extract_question at 1, findall_quoted.
  now rewrite findall_quoted_from_none.
Qed.

(** ** parser_query_response, continued *)

(** The text between a pair of tags: what the two [split]s of the parsers
    select, when the content has no [<]. *)
Lemma tag_content (key s pre v post : pystr) :
  tag_name key ->
  cut (open_tag key) s = Some (pre, v ++ close_tag key ++ post) ->
  ~ In lt_char v ->
  (after <- item (split (open_tag key) s) 1 ;;
   item (split (close_tag key) after) 0) = Ok v.
Proof.
  intros Hkey Hcut Hv. rewrite split_item_1 by discriminate. rewrite Hcut.
  cbn [bind]. rewrite split_item_0 by discriminate. f_equal.
  change (match cut (open_tag key) (v ++ close_tag key ++ post) with
          | Some (b, _) => b
          | None => v ++ close_tag key ++ post
          end)
    with (first_piece (open_tag key) (v ++ close_tag key ++ post)).
  rewrite first_piece_open_tag by assumption.
  change (match cut (close_tag key) ?x with Some (b, _) => b | None => ?x end)
    with (first_piece (close_tag key) x).
  change (close_tag key) with (lt_char :: "/"%char :: key ++ $">") at 1.
  rewrite first_piece_skip by assumption.
  change (lt_char :: "/"%char :: key ++ $">") with (close_tag key).
  now rewrite first_piece_here, app_nil_r.
Qed.

Lemma cut_absent (sep s : pystr) : ~ occurs sep s -> cut sep s = None.
Proof.
  intros H. destruct (cut sep s) as [[b a]|] eqn:E; [|reflexivity].
  exfalso. apply H. apply cut_occurs. eauto.
Qed.

(** X5: the parser succeeds exactly on the responses in which the opening
    tag [<queries>] occurs, whatever [num_queries] is; on any other
    response it raises [IndexError].  The closing tag is not needed. *)
Theorem parser_query_response_needs_open_tag (response : pystr)
  (num_queries : Z) :
  (occurs $"<queries>" response <->
   exists qs, parser_query_response response num_queries = Ok qs) /\
  (~ occurs $"<queries>" response ->
   parser_query_response response num_queries = Raise IndexError).
Proof.
  assert (Hno : ~ occurs $"<queries>" response ->
                parser_query_response response num_queries = Raise IndexError).
  { intros H. unfold parser_query_response, parsed_queries.
    rewrite split_item_1 by discriminate. now rewrite (cut_absent _ _ H). }
  split; [|exact Hno]. split.
  - intros H. apply cut_occurs in H. destruct H as (b & a & E).
    assert (Hp : exists lines, parsed_queries response = Ok lines).
    { unfold parsed_queries. rewrite split_item_1 by discriminate. rewrite E.
      cbn [bind]. rewrite split_item_0 by discriminate. cbn [bind]. eauto. }
    destruct Hp as (lines & Hp). eexists.
    apply (parser_query_response_lines _ _ _ Hp).
  - intros (qs & E). apply cut_occurs.
    destruct (cut $"<queries>" response) as [[b a]|] eqn:Ec; [eauto|].
    rewrite Hno in E; [discriminate E|]. intros H. apply cut_occurs in H.
    destruct H as (b & a & H). congruence.
Qed.

Lemma parser_query_response_needs_open_tag_witness :
  parser_query_response $"Sorry, I cannot help with that." NUM_QUERIES
  = Raise IndexError.
Proof.
  apply parser_query_response_needs_open_tag.
  apply cut_none. vm_compute. reflexivity.
Defined.

Lemma split_char_cons (h : ascii) (l rest : pystr) :
  ~ In h l -> split [h] (l ++ h :: rest) = l :: split [h] rest.
Proof.
  intros H. rewrite split_eq by discriminate. rewrite cut_skip by assumption.
  change (h :: rest) with ([h] ++ rest). rewrite cut_here.
  now rewrite app_nil_r.
Qed.

Lemma split_char_last (h : ascii) (l : pystr) :
  ~ In h l -> split [h] l = [l].
Proof.
  intros H. rewrite split_eq by discriminate.
  rewrite <- (app_nil_r l) at 1. rewrite cut_skip by assumption.
  reflexivity.
Qed.

(** Splitting joined lines gives the lines back. *)
Lemma split_join_lines (h : ascii) (lines : list pystr) (x : pystr) :
  Forall (fun l => ~ In h l) (x :: lines) ->
  split [h] (join [h] (x :: lines)) = x :: lines.
Proof.
  revert x. induction lines as [|y r IH]; intros x H.
  - apply split_char_last. now inversion H.
  - inversion H as [|? ? Hx Hr]; subst.
    change (join [h] (x :: y :: r)) with (x ++ h :: join [h] (y :: r)).
    rewrite split_char_cons by assumption. f_equal. now apply IH.
Qed.

Lemma re_sub_tags_plain (s : pystr) : ~ In lt_char s -> re_sub_tags s = s.
Proof.
  unfold re_sub_tags. induction s as [|c r IH]; intros H; [reflexivity|].
  cbn [re_sub_tags_from].
  assert (E : char_eqb c lt_char = false).
  { apply char_eqb_neq. intros ->. apply H. now left. }
  rewrite E. cbn [andb]. f_equal. apply IH. intros Hin. apply H. now right.
Qed.

Lemma replace_char_empty_plain (c : ascii) (s : pystr) :
  ~ In c s -> replace_char_empty c s = s.
Proof.
  unfold replace_char_empty. induction s as [|x r IH]; intros H; [reflexivity|].
  cbn [filter].
  assert (E : char_eqb x c = false).
  { apply char_eqb_neq. intros ->. apply H. now left. }
  rewrite E. cbn [negb]. f_equal. apply IH. intros Hin. apply H. now right.
Qed.

Lemma query_of_line_plain (l : pystr) : plain_query l -> query_of_line l = l.
Proof.
  intros (Hne & _ & Hq & Hlt & _ & Hd).
  unfold query_of_line, final_query, enhanced, strip_ordinal.
  destruct l as [|c r]; [contradiction|].
  rewrite (Hd c r eq_refl). rewrite replace_char_empty_idem.
  rewrite replace_char_empty_plain by assumption.
  now apply re_sub_tags_plain.
Qed.

Lemma plain_lines_survive (lines : list pystr) :
  Forall plain_query lines ->
  map strip (filter (fun query => nonempty (strip query)) lines) = lines.
Proof.
  induction lines as [|l r IH]; intros H; [reflexivity|].
  inversion H as [|? ? (Hne & Hs & _) Hr]; subst. cbn [filter]. rewrite Hs.
  destruct l as [|c l']; [contradiction|]. cbn [nonempty map].
  rewrite Hs. f_equal. now apply IH.
Qed.

Lemma queries_tag_name : tag_name $"queries".
Proof.
  split; [|discriminate].
  intros H. repeat (destruct H as [H|H]; [discriminate H|]). exact H.
Qed.

Lemma join_no_char (h c : ascii) (lines : list pystr) :
  c <> h -> Forall (fun l => ~ In c l) lines -> ~ In c (join [h] lines).
Proof.
  intros Hne. induction lines as [|l r IH]; intros H; [intros []|].
  inversion H as [|? ? Hl Hr]; subst. destruct r as [|y r'].
  - exact Hl.
  - change (join [h] (l :: y :: r')) with (l ++ h :: join [h] (y :: r')).
    intros Hin. apply in_app_or in Hin. destruct Hin as [Hin|[Hin|Hin]].
    + now apply Hl.
    + now apply Hne.
    + now apply (IH Hr).
Qed.

Lemma split_lines_block (x : pystr) (r : list pystr) :
  Forall (fun l => ~ In newline_char l) (x :: r) ->
  split [newline_char]
    (newline_char :: join [newline_char] (x :: r) ++ [newline_char])
  = [] :: (x :: r) ++ [[]].
Proof.
  intros H.
  change (newline_char :: join [newline_char] (x :: r) ++ [newline_char])
    with ([] ++ newline_char
             :: (join [newline_char] (x :: r) ++ [newline_char])).
  rewrite split_char_cons by (intros []). f_equal.
  revert x H. induction r as [|y r IH]; intros x H.
  - inversion H as [|? ? Hx _]; subst. cbn [join].
    rewrite split_char_cons by assumption. reflexivity.
  - inversion H as [|? ? Hx Hr]; subst.
    change (join [newline_char] (x :: y :: r) ++ [newline_char])
      with ((x ++ newline_char :: join [newline_char] (y :: r))
            ++ [newline_char]).
    rewrite <- app_assoc.
    change ((newline_char :: join [newline_char] (y :: r)) ++ [newline_char])
      with (newline_char :: (join [newline_char] (y :: r) ++ [newline_char])).
    rewrite split_char_cons by assumption. cbn [app]. f_equal.
    now apply IH.
Qed.

(** The lines of a well-formed block are the lines that survive the
    filter. *)
Lemma parsed_queries_block (pre post : pystr) (lines : list pystr) :
  ~ In lt_char pre -> Forall plain_query lines ->
  parsed_queries (pre ++ $"<queries>" ++ newline ++ join newline lines
                  ++ newline ++ $"</queries>" ++ post)
  = Ok lines.
Proof.
  intros Hpre Hl.
  set (body := newline ++ join newline lines ++ newline).
  assert (Hv : ~ In lt_char body).
  { unfold body. intros H. apply in_app_or in H. destruct H as [[H|[]]|H].
    - discriminate H.
    - apply in_app_or in H. destruct H as [H|[H|[]]]; [|discriminate H].
      revert H. apply join_no_char; [discriminate|].
      eapply Forall_impl; [|exact Hl]. intros l Hp. apply Hp. }
  assert (Hcut : cut (open_tag $"queries")
                   (pre ++ $"<queries>" ++ body ++ close_tag $"queries" ++ post)
                 = Some (pre, body ++ close_tag $"queries" ++ post)).
  { change (open_tag $"queries") with (lt_char :: $"queries>").
    rewrite cut_skip by assumption.
    change $"<queries>" with (lt_char :: $"queries>").
    rewrite cut_here. now rewrite app_nil_r. }
  pose proof (tag_content $"queries" _ pre body post queries_tag_name
                Hcut Hv) as Ht.
  unfold parsed_queries.
  replace (pre ++ $"<queries>" ++ newline ++ join newline lines
           ++ newline ++ $"</queries>" ++ post)
    with (pre ++ $"<queries>" ++ body ++ close_tag $"queries" ++ post)
    by (unfold body; now rewrite <- !app_assoc).
  change (open_tag $"queries") with $"<queries>" in Ht.
  change (close_tag $"queries") with $"</queries>" in Ht |- *.
  unfold bind in Ht |- *.
  destruct (item (split $"<queries>"
                    (pre ++ $"<queries>" ++ body ++ $"</queries>" ++ post)) 1)
    as [after|]; [|discriminate Ht].
  rewrite Ht. f_equal. unfold body.
  destruct lines as [|x r]; [vm_compute; reflexivity|].
  assert (Hn : Forall (fun l => ~ In newline_char l) (x :: r)).
  { eapply Forall_impl; [|exact Hl]. intros l H. apply H. }
  change (newline ++ join newline (x :: r) ++ newline)
    with (newline_char :: join [newline_char] (x :: r) ++ [newline_char]).
  change newline with [newline_char].
  rewrite (split_lines_block x r Hn).
  cbn [filter]. change (nonempty (strip [])) with false. cbv iota.
  rewrite filter_app, map_app. cbn [filter].
  change (nonempty (strip [])) with false. cbv iota. cbn [map].
  rewrite app_nil_r. exact (plain_lines_survive (x :: r) Hl).
Qed.

(** X6: what a well-formed answer carries is what the parser returns.  For
    plain queries (not empty, not padded with whitespace, without double
    quote, [<] or line end, not starting with a digit) written one per line
    between the tags, after a preamble without [<], the parser returns
    exactly these queries, unless there are [2 * num_queries] of them. *)
Theorem parser_query_response_round_trip (pre post : pystr)
  (lines : list pystr) (num_queries : Z) :
  ~ In lt_char pre -> Forall plain_query lines ->
  (Z.of_nat (length lines) <> num_queries * 2)%Z ->
  parser_query_response
    (pre ++ $"<queries>" ++ newline ++ join newline lines ++ newline
     ++ $"</queries>" ++ post) num_queries
  = Ok lines.
Proof.
  intros Hpre Hl Hlen.
  rewrite (parser_query_response_lines _ _ _ (parsed_queries_block pre post
                                                 lines Hpre Hl)).
  unfold halve_if_doubled. apply Z.eqb_neq in Hlen. rewrite Hlen. f_equal.
  clear Hlen. induction lines as [|l r IH]; [reflexivity|].
  inversion Hl; subst. cbn [map]. rewrite query_of_line_plain by assumption.
  f_equal. now apply IH.
Qed.

Lemma parser_query_response_round_trip_witness :
  parser_query_response
    ($"Here are the queries." ++ $"<queries>" ++ newline
     ++ join newline [$"X latest news"; $"X timeline 2025"] ++ newline
     ++ $"</queries>" ++ $" Done.") NUM_QUERIES
  = Ok [$"X latest news"; $"X timeline 2025"].
Proof.
  apply parser_query_response_round_trip.
  - vm_compute. intuition discriminate.
  - repeat constructor; try (vm_compute; intuition discriminate);
      intros c r E; injection E as <- _; reflexivity.
  - vm_compute. discriminate.
Defined.

(** ** get_urls_from_queries *)

Section SearchProperties.

Variable search_google :
  pystr -> option pystr -> option pystr -> Z -> result (list pystr).
Variable list_set : list pystr -> list pystr.

(** What [list(set(l))] is known to be: the elements of [l], once each. *)
Hypothesis list_set_In : forall l u, In u (list_set l) <-> In u l.
Hypothesis list_set_NoDup : forall l, NoDup (list_set l).

Lemma search_loop_In (queries : list pystr) (api_key engine : option pystr)
  (num : Z) (results : list pystr) (u : pystr) :
  In u (search_loop search_google queries api_key engine num results) <->
  In u results \/
  exists query urls, In query queries /\
                     search_google query api_key engine num = Ok urls /\
                     In u urls.
Proof.
  revert results. induction queries as [|q r IH]; intros results.
  - cbn [search_loop]. split; [now left|].
    intros [H|(query & urls & [] & _)]. exact H.
  - cbn [search_loop]. rewrite IH. unfold try_except, bind.
    destruct (search_google q api_key engine num) as [urls|e] eqn:E.
    + rewrite in_app_iff. split.
      * intros [[H|H]|(query & l & Hq & Hs & Hu)].
        -- now left.
        -- right. exists q, urls. split; [now left|]. now split.
        -- right. exists query, l. split; [now right|]. now split.
      * intros [H|(query & l & [<-|Hq] & Hs & Hu)].
        -- left. now left.
        -- left. right. congruence.
        -- right. exists query, l. now repeat split.
    + split.
      * intros [H|(query & l & Hq & Hs & Hu)]; [now left|].
        right. exists query, l. split; [now right|]. now split.
      * intros [H|(query & l & [<-|Hq] & Hs & Hu)].
        -- now left.
        -- congruence.
        -- right. exists query, l. now repeat split.
Qed.

(** X7: the urls returned for a list of queries are, once each, the links
    that the searches that succeeded returned; a search that raises adds
    nothing and stops nothing. *)
Theorem get_urls_from_queries_spec (queries : list pystr)
  (api_key engine : option pystr) (num : Z) :
  NoDup (get_urls_from_queries search_google list_set queries api_key engine
           num) /\
  forall u,
    In u (get_urls_from_queries search_google list_set queries api_key engine
            num) <->
    exists query urls, In query queries /\
                       search_google query api_key engine num = Ok urls /\
                       In u urls.
Proof.
  unfold get_urls_from_queries. split; [apply list_set_NoDup|].
  intros u. rewrite list_set_In, search_loop_In. split.
  - intros [[]|H]. exact H.
  - intros H. now right.
Qed.

End SearchProperties.

Lemma get_urls_from_queries_spec_witness :
  get_urls_from_queries example_search example_list_set
    [$"first"; $"failing"; $"second"] None None NUM_URLS_PER_QUERY
  = [$"http://a"; $"http://b"; $"http://c"] /\
  NoDup (get_urls_from_queries example_search example_list_set
           [$"first"; $"failing"; $"second"] None None NUM_URLS_PER_QUERY).
Proof.
  split; [vm_compute; reflexivity|].
  apply (get_urls_from_queries_spec example_search example_list_set).
  - intros l u. apply nodup_In.
  - intros l. apply NoDup_nodup.
Defined.

(** ** process_in_batches and extract_texts *)

Lemma windows_shape {A} (fuel window : nat) (l : list A) :
  (0 < window)%nat -> (length l <= fuel)%nat ->
  Forall (fun b => 1 <= length b <= window)%nat (windows fuel window l) /\
  (forall init last, windows fuel window l = init ++ [last] ->
                     Forall (fun b => length b = window) init).
Proof.
  intros Hw. revert l. induction fuel as [|fuel IH]; intros l Hl.
  - split; [constructor|]. intros [|b init] last H; discriminate H.
  - destruct l as [|x r].
    + split; [constructor|]. intros [|b init] last H; discriminate H.
    + cbn [windows].
      assert (Hs : (length (skipn window (x :: r)) <= fuel)%nat).
      { rewrite length_skipn. cbn [length] in *. lia. }
      destruct (IH _ Hs) as [IH1 IH2]. split.
      * constructor; [|exact IH1]. rewrite length_firstn. cbn [length]. lia.
      * intros [|b init] last H; [constructor|].
        cbn [app] in H. injection H as <- H. constructor; [|now apply (IH2 _ last)].
        rewrite length_firstn.
        assert (Hne : skipn window (x :: r) <> []).
        { intros E. rewrite E in H. destruct fuel; destruct init; discriminate H. }
        assert (length (skipn window (x :: r)) <> 0)%nat
          by (destruct (skipn window (x :: r)); [contradiction | discriminate]).
        rewrite length_skipn in *. lia.
Qed.

Lemma concat_map_map {A B} (f : A -> B) (ws : list (list A)) :
  concat (map (map f) ws) = map f (concat ws).
Proof.
  induction ws as [|w ws IH]; [reflexivity|].
  cbn [map concat]. now rewrite map_app, IH.
Qed.

Section FetchProperties.

Variable html_to_markdown : pystr -> result (option pystr).
Variable http_get : pystr -> result Response.
Variable pdf_reader : bytes -> result (list (result pystr)).
Variable submit : pystr -> nat -> option (result Response).

(** X8: the batches are the urls in their order, cut into groups of 5:
    every batch has between 1 and 5 urls and every batch but the last has
    exactly 5. *)
Theorem process_in_batches_shape (urls : list pystr) :
  let batches := process_in_batches submit urls in
  concat (map (map snd) batches) = urls /\
  Forall (fun b => 1 <= length b <= 5)%nat batches /\
  (forall init last, batches = init ++ [last] ->
                     Forall (fun b => length b = 5%nat) init).
Proof.
  intros batches. unfold batches, process_in_batches.
  assert (H5 : (0 < BATCH_WINDOW)%nat) by (unfold BATCH_WINDOW; lia).
  destruct (windows_shape (length urls) BATCH_WINDOW urls H5 (le_n _))
    as [H1 H2].
  split; [|split].
  - rewrite map_map. rewrite (map_ext _ (map (fun u : pystr => u))).
    + rewrite concat_map_map, map_id. now apply windows_concat.
    + intros w. rewrite map_map. reflexivity.
  - apply Forall_map. eapply Forall_impl; [|exact H1].
    intros b Hb. now rewrite length_map.
  - intros init last E.
    destruct (map_eq_app _ _ _ _ E) as (i0 & l0 & E0 & <- & El).
    destruct l0 as [|w [|w' l0']]; try discriminate El.
    apply Forall_map. eapply Forall_impl; [|exact (H2 _ _ E0)].
    intros b Hb. now rewrite length_map.
Qed.

(** X9: [extract_texts] goes through the urls one after the other, and the
    batch a url falls in changes nothing: the result for two lists of urls
    put end to end is the two results put end to end. *)
Theorem extract_texts_app (l1 l2 : list pystr) (num_words : option Z) :
  extract_texts html_to_markdown http_get pdf_reader submit (l1 ++ l2)
    num_words
  = extract_texts html_to_markdown http_get pdf_reader submit l1 num_words
    ++ extract_texts html_to_markdown http_get pdf_reader submit l2 num_words.
Proof. rewrite !extract_texts_per_url. apply flat_map_app. Qed.

(** X10: a url whose request fails, the exception showing when the future
    is asked for its result, or whose response has a status other than 200,
    is left out after this one attempt, and the urls before and after it
    give what they give without it. *)
Theorem extract_texts_skips_failed_request (l1 l2 : list pystr) (u : pystr)
  (num_words : option Z) (future : result Response) :
  submit u 0%nat = Some future ->
  (forall r, future = Ok r -> status_code r <> 200%Z) ->
  extract_texts html_to_markdown http_get pdf_reader submit (l1 ++ u :: l2)
    num_words
  = extract_texts html_to_markdown http_get pdf_reader submit (l1 ++ l2)
      num_words.
Proof.
  intros H0 Hf. rewrite !extract_texts_per_url, !flat_map_app.
  f_equal. cbn [flat_map]. unfold HTTP_MAX_RETIES. cbn [submit_retrying].
  rewrite H0. unfold extract_texts_entry, extract_texts_body, try_except.
  cbn [fst snd]. destruct future as [r|e]; cbn [bind]; [|reflexivity].
  destruct (Z.eqb_spec (status_code r) 200) as [E|_]; [|reflexivity].
  now destruct (Hf r eq_refl).
Qed.

(** What a url contributes: nothing, or one object; a [Document] among
    them carries the url. *)
Lemma extract_texts_entry_shape (num_words : option Z)
  (future : option (result Response)) (u : pystr) :
  extract_texts_entry html_to_markdown http_get pdf_reader num_words
    (future, u) = [] \/
  exists o,
    extract_texts_entry html_to_markdown http_get pdf_reader num_words
      (future, u) = [o] /\
    forall d, o = DocObj d -> url d = u.
Proof.
  unfold extract_texts_entry. cbn [fst snd].
  destruct future as [[r|e]|]; [| now left | now left].
  unfold extract_texts_body, try_except. cbn [bind].
  destruct (status_code r =? 200)%Z; [|now left].
  destruct (is_pdf u r).
  - cbn [bind].
    destruct (extract_text_from_pdf http_get pdf_reader u num_words)
      as [d|msg a|]; cbn [setattr_url bind].
    + right. eexists. split; [reflexivity|]. intros d0 E. now injection E as <-.
    + right. eexists. split; [reflexivity|]. intros d0 E. discriminate E.
    + now left.
  - destruct (extract_text html_to_markdown (resp_text r) num_words)
      as [[d|]|e]; cbn [bind setattr_url].
    + right. eexists. split; [reflexivity|]. intros d0 E. now injection E as <-.
    + now left.
    + now left.
Qed.

Lemma documents_app (a b : list pyobj) :
  documents (a ++ b) = documents a ++ documents b.
Proof. apply flat_map_app. Qed.

Lemma extract_texts_document_urls (urls : list pystr) (num_words : option Z)
  (d : Document) :
  In d (documents (extract_texts html_to_markdown http_get pdf_reader submit
                     urls num_words)) ->
  In (url d) urls.
Proof.
  rewrite extract_texts_per_url.
  induction urls as [|u r IH]; [intros []|].
  cbn [flat_map]. rewrite documents_app. intros Hd.
  apply in_app_or in Hd. destruct Hd as [Hd|Hd]; [|right; now apply IH].
  left.
  destruct (extract_texts_entry_shape num_words
              (submit_retrying submit u 0 HTTP_MAX_RETIES) u)
    as [E|(o & E & Ho)]; rewrite E in Hd; [destruct Hd|].
  destruct o as [d0| |]; cbn in Hd; try contradiction.
  destruct Hd as [<-|[]]. symmetry. now apply Ho.
Qed.

Lemma extract_texts_urls_NoDup (urls : list pystr) (num_words : option Z) :
  NoDup urls ->
  NoDup (map url (documents
                    (extract_texts html_to_markdown http_get pdf_reader
                       submit urls num_words))).
Proof.
  induction urls as [|u r IH]; intros Hnd.
  - rewrite extract_texts_per_url. constructor.
  - inversion Hnd as [|? ? Hu Hr]; subst. specialize (IH Hr).
    pose proof (extract_texts_document_urls r num_words) as Hin.
    rewrite extract_texts_per_url in *.
    cbn [flat_map]. rewrite documents_app, map_app.
    destruct (extract_texts_entry_shape num_words
                (submit_retrying submit u 0 HTTP_MAX_RETIES) u)
      as [E|(o & E & Ho)]; rewrite E; [exact IH|].
    destruct o as [d0| |]; cbn [documents flat_map app map];
      [|exact IH|exact IH].
    rewrite (Ho d0 eq_refl). constructor; [|exact IH].
    intros H. apply Hu. apply in_map_iff in H.
    destruct H as (d & <- & Hd). now apply Hin.
Qed.

(** X11: [extract_texts] returns at most one object per url; every
    [Document] in its result carries one of the urls, and when the urls are
    pairwise distinct so are the urls of the documents. *)
Theorem extract_texts_documents (urls : list pystr) (num_words : option Z) :
  let out := extract_texts html_to_markdown http_get pdf_reader submit urls
               num_words in
  (length out <= length urls)%nat /\
  (forall d, In d (documents out) -> In (url d) urls) /\
  (NoDup urls -> NoDup (map url (documents out))).
Proof.
  intros out. subst out. split; [|split].
  - rewrite extract_texts_per_url.
    induction urls as [|u r IH]; [apply le_n|].
    cbn [flat_map]. rewrite length_app.
    destruct (extract_texts_entry_shape num_words
                (submit_retrying submit u 0 HTTP_MAX_RETIES) u)
      as [E|(o & E & _)]; rewrite E; cbn [length]; lia.
  - apply extract_texts_document_urls.
  - apply extract_texts_urls_NoDup.
Qed.

End FetchProperties.

(** Seven urls make a batch of five and a batch of two. *)
Lemma process_in_batches_shape_witness :
  let urls := [$"u1"; $"u2"; $"u3"; $"u4"; $"u5"; $"u6"; $"u7"] in
  map (map snd) (process_in_batches example_submit urls)
  = [[$"u1"; $"u2"; $"u3"; $"u4"; $"u5"]; [$"u6"; $"u7"]] /\
  Forall (fun b : list (option (result Response) * pystr) => length b = 5%nat)
         (firstn 1 (process_in_batches example_submit urls)).
Proof.
  intros urls. split; [vm_compute; reflexivity|].
  destruct (process_in_batches_shape example_submit urls) as (_ & _ & H).
  apply (H (firstn 1 (process_in_batches example_submit urls))
           (map (fun u => (example_submit u 0%nat, u)) [$"u6"; $"u7"])).
  vm_compute. reflexivity.
Defined.

(** The requests to one host fail: its url is left out. *)
Lemma extract_texts_skips_failed_request_witness :
  flaky_submit $"http://down/page" 0%nat
  = Some (Raise (OtherException $"ConnectionError")) /\
  extract_texts example_markdown html_http_get failing_pdf_reader
    flaky_submit [$"http://a/page"; $"http://down/page"; $"http://b/page"]
    None
  = extract_texts example_markdown html_http_get failing_pdf_reader
      flaky_submit [$"http://a/page"; $"http://b/page"] None.
Proof.
  split; [reflexivity|].
  apply (extract_texts_skips_failed_request example_markdown html_http_get
           failing_pdf_reader flaky_submit [$"http://a/page"]
           [$"http://b/page"] $"http://down/page" None
           (Raise (OtherException $"ConnectionError"))).
  - reflexivity.
  - intros r H. discriminate H.
Defined.

Lemma extract_texts_documents_witness :
  let urls := [$"http://a/page"; $"http://down/page"; $"http://b/page"] in
  NoDup urls /\
  NoDup (map url (documents
                    (extract_texts example_markdown html_http_get
                       failing_pdf_reader flaky_submit urls None))).
Proof.
  intros urls.
  assert (Hnd : NoDup urls)
    by (repeat constructor; simpl; intuition discriminate).
  split; [exact Hnd|].
  now apply (extract_texts_documents example_markdown html_http_get
               failing_pdf_reader flaky_submit urls None).
Defined.

(** ** extract_text and extract_text_from_pdf, continued *)

Lemma count_words_normalized (t : pystr) :
  count_words (join $" " (split_ws t)) = count_words t.
Proof. rewrite count_words_join by apply split_ws_words. reflexivity. Qed.

(** X12: on a page whose markdown is [t], [extract_text] with a positive
    cap [n] returns the first [n] words of [t] joined by single spaces, a
    text of [min n (count_words t)] words; with no cap, and with a cap of 0
    as well, it returns all the words of [t] joined by single spaces.  The
    url of the document is empty. *)
Theorem extract_text_cap (html_to_markdown : pystr -> result (option pystr))
  (html t : pystr) :
  html_to_markdown html = Ok (Some t) ->
  (forall n, (0 < n)%Z ->
     extract_text html_to_markdown html (Some n)
     = Ok (Some (mkDocument (first_words n t) [] None)) /\
     count_words (first_words n t) = Z.min n (count_words t)) /\
  extract_text html_to_markdown html (Some 0%Z)
  = extract_text html_to_markdown html None /\
  extract_text html_to_markdown html None
  = Ok (Some (mkDocument (join $" " (split_ws t)) [] None)) /\
  count_words (join $" " (split_ws t)) = count_words t.
Proof.
  intros H. split; [|split; [|split]].
  - intros n Hn. split.
    + unfold extract_text. rewrite H. cbn [bind]. unfold truthy, int_of.
      destruct (Z.eqb_spec n 0) as [->|_]; [lia|]. cbn [negb].
      rewrite slice_to_firstn by lia. reflexivity.
    + unfold first_words.
      rewrite count_words_join by (apply Forall_firstn, split_ws_words).
      rewrite length_firstn. unfold count_words. lia.
  - unfold extract_text. rewrite H. reflexivity.
  - unfold extract_text. rewrite H. reflexivity.
  - apply count_words_normalized.
Qed.

Lemma extract_text_cap_witness :
  extract_text example_markdown $"  one  two three   four " (Some 3%Z)
  = Ok (Some (mkDocument $"one two three" [] None)) /\
  extract_text example_markdown $"  one  two three   four " None
  = Ok (Some (mkDocument $"one two three four" [] None)).
Proof.
  destruct (extract_text_cap example_markdown $"  one  two three   four "
              $"  one  two three   four " eq_refl) as (Hcap & _ & Hall & _).
  destruct (Hcap 3%Z eq_refl) as [E _]. rewrite E, Hall.
  split; vm_compute; reflexivity.
Defined.

Lemma concat_pages_ok (pages : list (result pystr)) (acc t : pystr) :
  concat_pages pages acc = Ok t ->
  exists ts, pages = map Ok ts /\ t = acc ++ concat ts.
Proof.
  revert acc. induction pages as [|p r IH]; intros acc H.
  - cbn in H. injection H as <-. exists []. now rewrite app_nil_r.
  - cbn [concat_pages] in H. destruct p as [x|e]; [|discriminate H].
    cbn [bind] in H. destruct (IH _ H) as (ts & -> & ->).
    exists (x :: ts). cbn [map concat]. now rewrite app_assoc.
Qed.

(** X13: [extract_text_from_pdf] returns a [Document] only when the request
    is answered with a status outside 400..599 and a content type that
    contains [application/pdf], and the reader reads every page; the
    document then carries the requested url, and its text is the texts of
    the pages one after the other, cut to its first [num_words] characters
    when a cap is given. *)
Theorem extract_text_from_pdf_document
  (http_get : pystr -> result Response)
  (pdf_reader : bytes -> result (list (result pystr)))
  (u : pystr) (num_words : option Z) (d : Document) :
  extract_text_from_pdf http_get pdf_reader u num_words = DocObj d ->
  url d = u /\
  exists response ts,
    http_get u = Ok response /\
    ((status_code response < 400)%Z \/ (600 <= status_code response)%Z) /\
    contains $"application/pdf" (content_type response) = true /\
    pdf_reader (content response) = Ok (map Ok ts) /\
    text d = if truthy num_words
             then slice_to (concat ts) (int_of num_words)
             else concat ts.
Proof.
  unfold extract_text_from_pdf, extract_text_from_pdf_body, try_except, bind.
  destruct (http_get u) as [response|] eqn:E1; [|discriminate].
  unfold raise_for_status.
  destruct ((400 <=? status_code response) && (status_code response <? 600))%Z
    eqn:E2; [discriminate|].
  destruct (contains $"application/pdf" (content_type response)) eqn:E3;
    cbn [negb]; [|discriminate].
  destruct (pdf_reader (content response)) as [pages|] eqn:E4; [|discriminate].
  destruct (concat_pages pages []) as [t|] eqn:E5; [|discriminate].
  intros H. injection H as <-. split; [reflexivity|].
  apply concat_pages_ok in E5. destruct E5 as (ts & -> & ->).
  exists response, ts. split; [reflexivity|]. split.
  - apply andb_false_iff in E2. destruct E2 as [E2|E2].
    + left. now apply Z.leb_gt.
    + right. now apply Z.ltb_ge.
  - now repeat split.
Qed.

Lemma extract_text_from_pdf_document_witness :
  let u := $"http://x/a.pdf" in
  let d := mkDocument $"page one.page two." u None in
  extract_text_from_pdf example_http_get two_page_reader u None = DocObj d /\
  url d = u /\
  exists response ts,
    example_http_get u = Ok response /\
    ((status_code response < 400)%Z \/ (600 <= status_code response)%Z) /\
    contains $"application/pdf" (content_type response) = true /\
    two_page_reader (content response) = Ok (map Ok ts) /\
    text d = if truthy None then slice_to (concat ts) (int_of None)
             else concat ts.
Proof.
  intros u d.
  assert (H : extract_text_from_pdf example_http_get two_page_reader u None
              = DocObj d) by (vm_compute; reflexivity).
  split; [exact H|].
  exact (extract_text_from_pdf_document example_http_get two_page_reader
           u None d H).
Defined.

(** ** select_docs, continued *)

Lemma accept_loop_count (wc : dict Z) (l acc : list pystr) :
  (length acc < 4)%nat ->
  length (accept_loop wc l acc)
  = Nat.min 4 (length acc
               + length (filter (fun u => (60 <=? dict_get wc u)%Z) l)).
Proof.
  revert acc. induction l as [|u r IH]; intros acc H.
  - cbn [accept_loop filter length]. lia.
  - cbn [accept_loop filter]. destruct (60 <=? dict_get wc u)%Z.
    + destruct (length (acc ++ [u]) =? 4)%nat eqn:E.
      * apply Nat.eqb_eq in E. rewrite E. rewrite length_app in E.
        cbn [length] in *. lia.
      * apply Nat.eqb_neq in E. rewrite IH.
        -- rewrite length_app. cbn [length]. lia.
        -- rewrite length_app in *. cbn [length] in *. lia.
    + destruct (length acc =? 4)%nat eqn:E.
      * apply Nat.eqb_eq in E. lia.
      * now apply IH.
Qed.

Lemma accept_loop_NoDup (wc : dict Z) (l acc : list pystr) :
  NoDup (acc ++ l) -> NoDup (accept_loop wc l acc).
Proof.
  revert acc. induction l as [|u r IH]; intros acc H.
  - now rewrite app_nil_r in H.
  - cbn [accept_loop]. destruct (60 <=? dict_get wc u)%Z.
    + assert (H' : NoDup ((acc ++ [u]) ++ r)) by (now rewrite <- app_assoc).
      destruct (length (acc ++ [u]) =? 4)%nat; [|now apply IH].
      now apply NoDup_app_remove_r in H'.
    + apply NoDup_remove_1 in H.
      destruct (length acc =? 4)%nat; [|now apply IH].
      now apply NoDup_app_remove_r in H.
Qed.

Lemma filter_length_perm {A} (f : A -> bool) (l l' : list A) :
  Permutation l l' -> length (filter f l) = length (filter f l').
Proof.
  induction 1 as [|x l l' _ IH|x y l|l l' l'' _ IH1 _ IH2]; cbn [filter].
  - reflexivity.
  - destruct (f x); cbn [length]; now rewrite IH.
  - destruct (f x), (f y); reflexivity.
  - now rewrite IH1.
Qed.

Lemma dict_keys_set_new {V} (d : dict V) (k : pystr) (v : V) :
  ~ In k (dict_keys d) -> dict_keys (dict_set d k v) = dict_keys d ++ [k].
Proof.
  unfold dict_keys. induction d as [|[k0 v0] r IH]; intros H; [reflexivity|].
  cbn [dict_set]. destruct (str_eqb k k0) eqn:E.
  - apply str_eqb_eq in E. subst. exfalso. apply H. now left.
  - cbn [map fst app]. f_equal. apply IH. intros Hin. apply H. now right.
Qed.

Lemma word_counts_from_keys_distinct (docs : list Document) (acc : dict Z) :
  NoDup (dict_keys acc ++ map url docs) ->
  dict_keys (word_counts_from acc docs) = dict_keys acc ++ map url docs.
Proof.
  revert acc. induction docs as [|d r IH]; intros acc H.
  - cbn. now rewrite app_nil_r.
  - unfold word_counts_from in *. cbn [fold_left map].
    assert (Hd : ~ In (url d) (dict_keys acc)).
    { cbn [map] in H. apply NoDup_remove_2 in H. intros Hin. apply H.
      apply in_or_app. now left. }
    rewrite IH; rewrite dict_keys_set_new by assumption.
    + now rewrite <- app_assoc.
    + cbn [map] in H. now rewrite <- app_assoc.
Qed.

(** With distinct urls, the documents that qualify and the urls that
    qualify are as many. *)
Lemma qualifying_urls (docs : list Document) :
  NoDup (map url docs) ->
  length (filter (fun u => (60 <=? dict_get (word_counts docs) u)%Z)
                 (sorted_docs docs))
  = length (filter (fun d => (60 <=? count_words (text d))%Z) docs).
Proof.
  intros Hnd. unfold sorted_docs.
  rewrite (filter_length_perm _ _ _ (sorted_desc_perm _ _)).
  change (word_counts docs) with (word_counts_from [] docs) at 2.
  rewrite word_counts_from_keys_distinct by exact Hnd. cbn [dict_keys map app].
  assert (H : forall l, incl l docs ->
              length (filter (fun u => (60 <=? dict_get (word_counts docs) u)%Z)
                             (map url l))
              = length (filter (fun d => (60 <=? count_words (text d))%Z) l)).
  { induction l as [|d r IH]; intros Hin; [reflexivity|].
    cbn [map filter].
    rewrite (word_counts_get docs d Hnd (Hin d (or_introl eq_refl))).
    destruct (60 <=? count_words (text d))%Z; cbn [length];
      rewrite IH; auto; intros x Hx; apply Hin; now right. }
  apply H. apply incl_refl.
Qed.

Lemma selected_urls_NoDup (docs : list Document) : NoDup (selected_urls docs).
Proof. apply accept_loop_NoDup. apply sorted_docs_NoDup. Qed.

(** With distinct urls, as many documents are returned as urls were
    accepted. *)
Lemma select_docs_length_selected (docs : list Document)
  (n_docs min_words max_words : Z) :
  NoDup (map url docs) ->
  length (select_docs docs n_docs min_words max_words)
  = length (selected_urls docs).
Proof.
  intros Hnd. unfold select_docs. rewrite length_map, <- (length_map url).
  apply Permutation_length. apply NoDup_Permutation.
  - now apply filter_urls_NoDup.
  - apply selected_urls_NoDup.
  - intros u. rewrite in_map_iff. split.
    + intros (d & <- & Hd). apply filter_In in Hd. now apply str_in_In.
    + intros Hu. destruct (selected_urls_qualify docs u Hu) as [Hin _].
      apply in_map_iff in Hin. destruct Hin as (d & <- & Hd).
      exists d. split; [reflexivity|]. apply filter_In.
      split; [assumption | now apply str_in_In].
Qed.

(** X14: with pairwise distinct urls, [select_docs] returns as many
    documents as there are documents of 60 words or more, up to 4: all of
    them when they are 4 or fewer. *)
Theorem select_docs_count (docs : list Document)
  (n_docs min_words max_words : Z) :
  NoDup (map url docs) ->
  length (select_docs docs n_docs min_words max_words)
  = Nat.min 4 (length (filter (fun d => (60 <=? count_words (text d))%Z)
                              docs)).
Proof.
  intros Hnd. rewrite select_docs_length_selected by assumption.
  unfold selected_urls. rewrite accept_loop_count by (cbn; lia).
  cbn [length plus]. now rewrite qualifying_urls.
Qed.

Lemma select_docs_count_witness :
  let docs := [example_doc $"a" 61; example_doc $"b" 3; example_doc $"c" 70] in
  NoDup (map url docs) /\
  length (select_docs docs N_DOCS MIN_WORDS MAX_DOC_WORDS) = 2%nat.
Proof.
  intros docs.
  assert (Hnd : NoDup (map url docs))
    by (repeat constructor; simpl; intuition discriminate).
  split; [exact Hnd|].
  rewrite (select_docs_count docs N_DOCS MIN_WORDS MAX_DOC_WORDS Hnd).
  vm_compute. reflexivity.
Defined.

(** At most four documents that all qualify are returned as they are. *)
Lemma select_docs_fixpoint (docs : list Document)
  (n_docs min_words max_words : Z) :
  NoDup (map url docs) -> (length docs <= 4)%nat ->
  (forall d, In d docs -> (60 <= count_words (text d) <= 10000)%Z) ->
  select_docs docs n_docs min_words max_words = docs.
Proof.
  intros Hnd Hlen Hq.
  assert (Hall : length (filter (fun d => (60 <=? count_words (text d))%Z) docs)
                 = length docs).
  { clear Hnd Hlen. induction docs as [|d r IH]; [reflexivity|].
    cbn [filter]. destruct (Hq d (or_introl eq_refl)) as [H _].
    apply Z.leb_le in H. rewrite H. cbn [length]. f_equal. apply IH.
    intros x Hx. apply Hq. now right. }
  assert (Hsel : forall d, In d docs -> In (url d) (selected_urls docs)).
  { intros d Hd.
    assert (Hincl : incl (map url docs) (selected_urls docs)).
    { apply NoDup_length_incl.
      - apply selected_urls_NoDup.
      - unfold selected_urls. rewrite accept_loop_count by (cbn; lia).
        cbn [length plus]. rewrite qualifying_urls by assumption.
        rewrite Hall, length_map. lia.
      - intros u Hu. now apply selected_urls_qualify in Hu. }
    apply Hincl. now apply in_map. }
  unfold select_docs.
  assert (Hf : filter (fun doc => str_in (url doc) (selected_urls docs)) docs
               = docs).
  { clear Hall Hnd Hlen Hq. revert Hsel. generalize (selected_urls docs).
    intros sel Hsel. induction docs as [|d r IH]; [reflexivity|].
    cbn [filter].
    assert (E : str_in (url d) sel = true)
      by (apply str_in_In, Hsel; now left).
    rewrite E. f_equal. apply IH. intros x Hx. apply Hsel. now right. }
  rewrite Hf. transitivity (map (fun x : Document => x) docs);
    [|apply map_id]. apply map_ext_in.
  intros d Hd. unfold cap_doc. rewrite (word_counts_get docs d Hnd Hd).
  destruct (Hq d Hd) as [_ H]. apply Z.ltb_ge in H. now rewrite H.
Qed.

Lemma select_docs_urls_NoDup (docs : list Document)
  (n_docs min_words max_words : Z) :
  NoDup (map url docs) ->
  NoDup (map url (select_docs docs n_docs min_words max_words)).
Proof.
  intros Hnd. unfold select_docs. rewrite map_map.
  rewrite (map_ext _ url) by (intros d; apply cap_doc_url).
  now apply filter_urls_NoDup.
Qed.

(** With distinct urls, a returned document has between 60 and 10000
    words. *)
Lemma select_docs_words (docs : list Document)
  (n_docs min_words max_words : Z) (d' : Document) :
  NoDup (map url docs) ->
  In d' (select_docs docs n_docs min_words max_words) ->
  (60 <= count_words (text d') <= 10000)%Z.
Proof.
  intros Hnd Hd'. apply select_docs_In in Hd'.
  destruct Hd' as (d & Hd & Hs & ->).
  apply selected_urls_qualify in Hs. destruct Hs as [_ Hq].
  rewrite (word_counts_get _ _ Hnd Hd) in Hq.
  destruct (cap_doc_distinct docs d Hnd Hd) as [Hlong Hshort].
  destruct (Z.ltb_spec 10000 (count_words (text d))) as [H|H].
  - rewrite (Hlong H). cbn [text set_text].
    rewrite count_words_first_words; lia.
  - rewrite (Hshort H). lia.
Qed.

(** X15: with pairwise distinct urls, selecting among the selected
    documents changes nothing, whatever the parameters of the two calls. *)
Theorem select_docs_idempotent (docs : list Document)
  (n_docs min_words max_words n_docs' min_words' max_words' : Z) :
  NoDup (map url docs) ->
  select_docs (select_docs docs n_docs min_words max_words)
    n_docs' min_words' max_words'
  = select_docs docs n_docs min_words max_words.
Proof.
  intros Hnd. apply select_docs_fixpoint.
  - now apply select_docs_urls_NoDup.
  - now apply select_docs_length.
  - intros d Hd. eapply select_docs_words; eassumption.
Qed.

Lemma select_docs_idempotent_witness :
  let docs := [example_doc $"a" 61; example_doc $"b" 3; example_doc $"c" 70] in
  NoDup (map url docs) /\
  select_docs (select_docs docs N_DOCS MIN_WORDS MAX_DOC_WORDS) 1 0 0
  = select_docs docs N_DOCS MIN_WORDS MAX_DOC_WORDS.
Proof.
  intros docs.
  assert (Hnd : NoDup (map url docs))
    by (repeat constructor; simpl; intuition discriminate).
  split; [exact Hnd|].
  exact (select_docs_idempotent docs N_DOCS MIN_WORDS MAX_DOC_WORDS 1 0 0 Hnd).
Defined.

(** X16: the returned documents stand in the order of the input, not in
    the order of the walk: their urls are the urls of the input with the
    urls that were not accepted left out. *)
Theorem select_docs_input_order (docs : list Document)
  (n_docs min_words max_words : Z) :
  map url (select_docs docs n_docs min_words max_words)
  = filter (fun u => str_in u (selected_urls docs)) (map url docs).
Proof.
  unfold select_docs. rewrite map_map.
  rewrite (map_ext _ url) by (intros d; apply cap_doc_url).
  generalize (selected_urls docs). intros sel.
  induction docs as [|d r IH]; [reflexivity|].
  cbn [filter map]. destruct (str_in (url d) sel); cbn [map]; now rewrite IH.
Qed.

(** ** fetch_additional_information *)

Lemma documents_cons (o : pyobj) (l : list pyobj) :
  documents (o :: l)
  = match o with DocObj d => d :: documents l | _ => documents l end.
Proof. destruct o; reflexivity. Qed.

Lemma documents_filter_sub (f : pyobj -> bool) (l : list pyobj) (d : Document) :
  In d (documents (filter f l)) -> In d (documents l).
Proof.
  unfold documents. rewrite !in_flat_map. intros (o & Ho & Hd).
  exists o. apply filter_In in Ho. tauto.
Qed.

Lemma documents_filter_NoDup (f : pyobj -> bool) (l : list pyobj) :
  NoDup (map url (documents l)) -> NoDup (map url (documents (filter f l))).
Proof.
  induction l as [|o r IH]; intros H; [constructor|].
  rewrite documents_cons in H. cbn [filter].
  assert (Hr : NoDup (map url (documents r))).
  { destruct o; [now inversion H | exact H | exact H]. }
  destruct (f o); [|now apply IH].
  rewrite documents_cons. destruct o as [d| |]; [|now apply IH|now apply IH].
  cbn [map] in *. inversion H as [|? ? Hd _]; subst.
  constructor; [|now apply IH].
  intros Hin. apply Hd. apply in_map_iff in Hin.
  destruct Hin as (x & E & Hx). apply in_map_iff. exists x.
  split; [assumption|]. now apply documents_filter_sub in Hx.
Qed.

Lemma NoDup_firstn {A} (n : nat) (l : list A) : NoDup l -> NoDup (firstn n l).
Proof.
  intros H. rewrite <- (firstn_skipn n l) in H.
  now apply NoDup_app_remove_r in H.
Qed.

Section PipelineProperties.

Variable T : Type.
Variable client : Request T -> result Message.
Variable search_google :
  pystr -> option pystr -> option pystr -> Z -> result (list pystr).
Variable list_set : list pystr -> list pystr.
Variable html_to_markdown : pystr -> result (option pystr).
Variable http_get : pystr -> result Response.
Variable pdf_reader : bytes -> result (list (result pystr)).
Variable submit : pystr -> nat -> option (result Response).

Hypothesis list_set_In : forall l u, In u (list_set l) <-> In u l.
Hypothesis list_set_NoDup : forall l, NoDup (list_set l).

(** The supplied pages give one document each, under the key of the
    page. *)
Lemma source_loop_ok (items : list (pystr * pystr)) (acc docs : list pyobj) :
  source_loop html_to_markdown items acc = Ok docs ->
  map url (documents docs) = map url (documents acc) ++ map fst items.
Proof.
  revert acc. induction items as [|[u page] r IH]; intros acc H.
  - cbn in H. injection H as <-. now rewrite app_nil_r.
  - cbn [source_loop] in H. unfold bind in H.
    destruct (extract_text html_to_markdown page None) as [[d|]|];
      cbn [setattr_url] in H; try discriminate H.
    rewrite (IH _ H). rewrite documents_app, map_app, <- app_assoc.
    reflexivity.
Qed.

(** The documents that reach the selection have pairwise distinct urls. *)
Lemma gather_docs_distinct (queries : list pystr)
  (google_api_key google_engine_id : option pystr)
  (source_links : option (dict pystr)) (num_urls : option Z)
  (docs : list pyobj) :
  (forall links, source_links = Some links -> NoDup (dict_keys links)) ->
  gather_docs search_google list_set html_to_markdown http_get pdf_reader
    submit queries google_api_key google_engine_id source_links num_urls
  = Ok docs ->
  NoDup (map url (documents docs)).
Proof.
  intros Hkeys. unfold gather_docs.
  destruct (links_truthy source_links) eqn:El; cbn [negb].
  - destruct source_links as [links|]; [|discriminate El].
    unfold bind.
    destruct (islice_stop num_urls (length links)) as [stop|]; [|discriminate].
    intros H. rewrite (source_loop_ok _ _ _ H). cbn [documents flat_map map app].
    rewrite <- firstn_map. apply NoDup_firstn. now apply Hkeys.
  - intros H. injection H as <-.
    now apply extract_texts_urls_NoDup.
Qed.

(** X17: whatever the capabilities answer, when
    [fetch_additional_information] returns, the information block is made
    of at most 4 articles, 60 to 10000 words each, under pairwise distinct
    urls.  (The keys of a dict of supplied pages are distinct.) *)
Theorem fetch_additional_information_articles (prompt engine : pystr)
  (google_api_key google_engine_id : option pystr)
  (counter_callback : option callback)
  (source_links : option (dict pystr)) (num_urls : option Z)
  (num_queries : Z) (temperature : T) (max_tokens : Z) (n_docs : Z)
  (information : pystr) (cb : option callback) :
  (forall links, source_links = Some links -> NoDup (dict_keys links)) ->
  fetch_additional_information client search_google list_set html_to_markdown
    http_get pdf_reader submit prompt engine google_api_key google_engine_id
    counter_callback source_links num_urls num_queries temperature max_tokens
    n_docs = Ok (information, cb) ->
  exists selected_docs,
    information = join newline (articles 0 selected_docs) /\
    (length selected_docs <= 4)%nat /\
    NoDup (map url selected_docs) /\
    forall d, In d selected_docs ->
              text d <> [] /\ (60 <= count_words (text d) <= 10000)%Z.
Proof.
  intros Hkeys. unfold fetch_additional_information, bind.
  destruct (gather_docs _ _ _ _ _ _ _ _ _ _ _) as [docs|] eqn:Eg;
    [|discriminate].
  intros H. injection H as <- <-.
  pose proof (gather_docs_distinct _ _ _ _ _ _ Hkeys Eg) as Hnd.
  set (filtered := documents (filter has_text (filter obj_truthy docs))).
  assert (Hf : NoDup (map url filtered)).
  { unfold filtered. now do 2 apply documents_filter_NoDup. }
  eexists. split; [reflexivity|]. split; [now apply select_docs_length|].
  split; [now apply select_docs_urls_NoDup|].
  intros d Hd. split; [|eapply select_docs_words; eassumption].
  pose proof (select_docs_words _ _ _ _ _ Hf Hd) as [Hw _].
  intros E. rewrite E in Hw. vm_compute in Hw. now apply Hw.
Qed.

Lemma generate_queries_callback (prompt engine : pystr) (num_queries : Z)
  (counter_callback : option callback) (temperature : T) (max_tokens : Z) :
  snd (generate_queries client prompt engine num_queries counter_callback
         temperature max_tokens) = counter_callback.
Proof.
  unfold generate_queries, try_except.
  destruct (multi_queries client prompt engine num_queries counter_callback
              temperature max_tokens) as [[qs cb']|] eqn:Em; [|reflexivity].
  apply multi_queries_ok in Em. now destruct Em as [-> _].
Qed.

(** Nothing is gathered when no search returns a link. *)
Lemma gather_docs_nothing_found (queries : list pystr)
  (google_api_key google_engine_id : option pystr)
  (source_links : option (dict pystr)) (num_urls : option Z) :
  links_truthy source_links = false ->
  (forall query urls,
     search_google query google_api_key google_engine_id NUM_URLS_PER_QUERY
     = Ok urls -> urls = []) ->
  gather_docs search_google list_set html_to_markdown http_get pdf_reader
    submit queries google_api_key google_engine_id source_links num_urls
  = Ok [].
Proof.
  intros Hl Hs. unfold gather_docs. rewrite Hl. cbn [negb].
  assert (Hnil : forall l, (forall u, ~ In u l) -> list_set l = []).
  { intros l Hno. destruct (list_set l) as [|x r] eqn:E; [reflexivity|].
    exfalso. apply (Hno x). apply list_set_In. rewrite E. now left. }
  assert (E : get_urls_from_queries search_google list_set queries
                google_api_key google_engine_id NUM_URLS_PER_QUERY = []).
  { unfold get_urls_from_queries. apply Hnil. intros u Hu.
    apply search_loop_In in Hu. destruct Hu as [[]|(q & urls & _ & Hq & Hu)].
    rewrite (Hs q urls Hq) in Hu. exact Hu. }
  rewrite E. rewrite (Hnil [] (fun u H => H)). reflexivity.
Qed.

Lemma fetch_additional_information_empty (prompt engine : pystr)
  (google_api_key google_engine_id : option pystr)
  (counter_callback : option callback)
  (source_links : option (dict pystr)) (num_urls : option Z)
  (num_queries : Z) (temperature : T) (max_tokens : Z) (n_docs : Z) :
  links_truthy source_links = false ->
  (forall query urls,
     search_google query google_api_key google_engine_id NUM_URLS_PER_QUERY
     = Ok urls -> urls = []) ->
  fetch_additional_information client search_google list_set html_to_markdown
    http_get pdf_reader submit prompt engine google_api_key google_engine_id
    counter_callback source_links num_urls num_queries temperature max_tokens
    n_docs = Ok ([], counter_callback).
Proof.
  intros Hl Hs. unfold fetch_additional_information.
  rewrite (gather_docs_nothing_found _ _ _ _ num_urls Hl Hs).
  cbn [bind filter documents flat_map]. rewrite generate_queries_callback.
  reflexivity.
Qed.

(** X18: when no search returns any link and no page is supplied, the
    information block is empty; [fetch_additional_information] returns all
    the same, with the counter callback it was given. *)
Theorem fetch_additional_information_no_results (prompt engine : pystr)
  (google_api_key google_engine_id : option pystr)
  (counter_callback : option callback)
  (source_links : option (dict pystr)) (num_urls : option Z)
  (num_queries : Z) (temperature : T) (max_tokens : Z) (n_docs : Z) :
  links_truthy source_links = false ->
  (forall query urls,
     search_google query google_api_key google_engine_id NUM_URLS_PER_QUERY
     = Ok urls -> urls = []) ->
  fetch_additional_information client search_google list_set html_to_markdown
    http_get pdf_reader submit prompt engine google_api_key google_engine_id
    counter_callback source_links num_urls num_queries temperature max_tokens
    n_docs = Ok ([], counter_callback).
Proof.
  intros Hl Hs. unfold fetch_additional_information.
  rewrite (gather_docs_nothing_found _ _ _ _ num_urls Hl Hs).
  cbn [bind filter documents flat_map]. rewrite generate_queries_callback.
  reflexivity.
Qed.

Lemma source_loop_fails (items : list (pystr * pystr)) (acc : list pyobj)
  (u page : pystr) :
  In (u, page) items ->
  (html_to_markdown page = Ok None \/
   exists e, html_to_markdown page = Raise e) ->
  exists e, source_loop html_to_markdown items acc = Raise e.
Proof.
  intros Hin Hfail. revert acc.
  induction items as [|[u0 page0] r IH]; intros acc; [contradiction|].
  cbn [source_loop]. unfold bind, extract_text.
  destruct Hin as [E|Hin].
  - injection E as -> ->. destruct Hfail as [H|(e & H)]; rewrite H.
    + cbn. eauto.
    + cbn. eauto.
  - destruct (html_to_markdown page0) as [[t|]|e].
    + cbn [setattr_url]. now apply IH.
    + cbn. eauto.
    + cbn. eauto.
Qed.

(** X19: in the branch of the supplied pages nothing is caught.  When the
    extraction of one of the pages that are read raises, or gives [None],
    [fetch_additional_information] raises; and so it does for a negative
    [num_urls]. *)
Theorem fetch_additional_information_source_failure (prompt engine : pystr)
  (google_api_key google_engine_id : option pystr)
  (counter_callback : option callback)
  (links : dict pystr) (num_urls : option Z)
  (num_queries : Z) (temperature : T) (max_tokens : Z) (n_docs : Z) :
  links <> [] ->
  ((exists n, num_urls = Some n /\ (n < 0)%Z) \/
   (exists stop u page,
      islice_stop num_urls (length links) = Ok stop /\
      In (u, page) (firstn stop links) /\
      (html_to_markdown page = Ok None \/
       exists e, html_to_markdown page = Raise e))) ->
  exists e,
    fetch_additional_information client search_google list_set
      html_to_markdown http_get pdf_reader submit prompt engine
      google_api_key google_engine_id counter_callback (Some links) num_urls
      num_queries temperature max_tokens n_docs = Raise e.
Proof.
  intros Hne H. unfold fetch_additional_information, gather_docs.
  assert (Hl : links_truthy (Some links) = true)
    by (destruct links; [contradiction | reflexivity]).
  rewrite Hl. cbn [negb]. destruct H as [(n & -> & Hn)|(stop & u & page & Hs & Hin & Hf)].
  - unfold islice_stop, truthy, int_of.
    destruct (Z.eqb_spec n 0) as [->|_]; [lia|]. cbn [negb].
    apply Z.ltb_lt in Hn. rewrite Hn. cbn. eauto.
  - rewrite Hs. cbn [bind].
    destruct (source_loop_fails _ [] u page Hin Hf) as (e & E).
    rewrite E. cbn. eauto.
Qed.

End PipelineProperties.

(** Two supplied pages, one long enough: one article. *)
Lemma fetch_additional_information_articles_witness :
  let information :=
    join newline (articles 0 [mkDocument (example_text 61) $"http://a" None]) in
  fetch_additional_information failing_client example_search example_list_set
    example_markdown html_http_get failing_pdf_reader example_submit
    $"Will X happen?" $"claude-3-haiku-20240307" None None None
    (Some example_links) None NUM_QUERIES 0%Z 1000%Z N_DOCS
  = Ok (information, None) /\
  exists selected_docs,
    information = join newline (articles 0 selected_docs) /\
    (length selected_docs <= 4)%nat /\
    NoDup (map url selected_docs) /\
    forall d, In d selected_docs ->
              text d <> [] /\ (60 <= count_words (text d) <= 10000)%Z.
Proof.
  intros information.
  assert (H : fetch_additional_information failing_client example_search
                example_list_set example_markdown html_http_get
                failing_pdf_reader example_submit
                $"Will X happen?" $"claude-3-haiku-20240307" None None None
                (Some example_links) None NUM_QUERIES 0%Z 1000%Z N_DOCS
              = Ok (information, None)) by (vm_compute; reflexivity).
  split; [exact H|].
  eapply fetch_additional_information_articles; [| |exact H].
  - intros l. apply NoDup_nodup.
  - intros links E. injection E as <-.
    repeat constructor; simpl; intuition discriminate.
Defined.

Lemma fetch_additional_information_no_results_witness :
  fetch_additional_information failing_client no_search example_list_set
    example_markdown html_http_get failing_pdf_reader example_submit
    $"Will X happen?" $"claude-3-haiku-20240307" None None None
    None (Some NUM_URLS_PER_QUERY) NUM_QUERIES 0%Z 1000%Z N_DOCS
  = Ok ([], None).
Proof.
  eapply fetch_additional_information_no_results.
  - intros l u. apply nodup_In.
  - reflexivity.
  - intros query urls E. now injection E as <-.
Defined.

Lemma fetch_additional_information_source_failure_witness :
  exists e,
    fetch_additional_information failing_client no_search example_list_set
      none_markdown html_http_get failing_pdf_reader example_submit
      $"Will X happen?" $"claude-3-haiku-20240307" None None None
      (Some example_links) None NUM_QUERIES 0%Z 1000%Z N_DOCS
    = Raise e.
Proof.
  eapply fetch_additional_information_source_failure.
  - discriminate.
  - right. exists 2%nat, $"http://a", (example_text 61).
    split; [reflexivity|]. split; [now left|]. now left.
Defined.

(** ** run *)

Lemma allowed_tool_engine (tool : pystr) :
  In tool ALLOWED_TOOLS ->
  dict_item TOOL_TO_ENGINE tool = Ok $"claude-3-haiku-20240307" /\
  str_in tool ALLOWED_TOOLS = true.
Proof. intros [<-|[]]. split; vm_compute; reflexivity. Qed.

Section RunProperties.

Variable T : Type.
Variable DEFAULT_TEMPERATURE : T.
Variable anthropic : pystr -> Request T -> result Message.
Variable search_google :
  pystr -> option pystr -> option pystr -> Z -> result (list pystr).
Variable list_set : list pystr -> list pystr.
Variable html_to_markdown : pystr -> result (option pystr).
Variable http_get : pystr -> result Response.
Variable pdf_reader : bytes -> result (list (result pystr)).
Variable submit : pystr -> nat -> option (result Response).
Variable pyfloat : Type.
Variable float : pystr -> result pyfloat.
Variable float_repr : pyfloat -> pystr.

Hypothesis list_set_In : forall l u, In u (list_set l) <-> In u l.

(** X20: a model that is not allowed is refused with
    [ValueError("Model ... not supported.")], whatever the model, the
    search and the network would answer: they are not asked. *)
Theorem run_rejects_model (kwargs : Kwargs T) (tool model prompt key : pystr)
  (keys : ApiKeys) :
  kw_tool kwargs = Some tool -> In tool ALLOWED_TOOLS ->
  kw_model kwargs = Some model -> ~ In model ALLOWED_MODELS ->
  kw_prompt kwargs = Some prompt ->
  kw_api_keys kwargs = Some keys -> key_anthropic keys = Some key ->
  run DEFAULT_TEMPERATURE anthropic search_google list_set html_to_markdown
    http_get pdf_reader submit float float_repr kwargs
  = Raise (ValueError ($"Model " ++ model ++ $" not supported.")).
Proof.
  intros Ht Hin Hm Hnot Hp Hk Ha. unfold run.
  rewrite Ht, Hp, Hk, Hm. cbn [required bind get_default].
  destruct (allowed_tool_engine tool Hin) as [E _]. rewrite E. cbn [bind].
  rewrite Ha. cbn [required bind].
  assert (Hs : str_in model ALLOWED_MODELS = false).
  { destruct (str_in model ALLOWED_MODELS) eqn:Es; [|reflexivity].
    apply str_in_In in Es. contradiction. }
  now rewrite Hs.
Qed.

(** X21: a tool that is not allowed makes [run] raise [KeyError] from the
    lookup of its default engine, before anything else is read; the test
    that would raise [ValueError("Tool ... not supported.")] is never
    reached with such a tool. *)
Theorem run_unknown_tool (kwargs : Kwargs T) (tool : pystr) :
  kw_tool kwargs = Some tool -> ~ In tool ALLOWED_TOOLS ->
  run DEFAULT_TEMPERATURE anthropic search_google list_set html_to_markdown
    http_get pdf_reader submit float float_repr kwargs
  = Raise (KeyError tool).
Proof.
  intros Ht Hnot. unfold run. rewrite Ht. cbn [required bind].
  unfold TOOL_TO_ENGINE, ALLOWED_TOOLS in *. cbn [fold_left dict_set dict_item].
  destruct (str_eqb tool $"prediction-url-cot-claude") eqn:E; [|reflexivity].
  apply str_eqb_eq in E. exfalso. apply Hnot. now left.
Qed.

(** X22: a run that finds no document goes on: with an allowed tool and
    model, no counter callback, no supplied page and searches that return
    no link, [run] sends the prediction prompt with an empty information
    block and the extracted question, and returns what the parser makes of
    the first content block of the answer - the prediction with the prompt,
    or the parser's error. *)
Theorem run_without_documents (kwargs : Kwargs T) (tool prompt key : pystr)
  (keys : ApiKeys) (response : Message) (block : pystr) :
  let question := extract_question prompt in
  let prediction_prompt := PREDICTION_PROMPT [] question in
  let temperature := get_default (kw_temperature kwargs) DEFAULT_TEMPERATURE in
  let max_tokens := get_default (kw_max_tokens kwargs) DEFAULT_MAX_TOKENS in
  kw_tool kwargs = Some tool -> In tool ALLOWED_TOOLS ->
  (forall model, kw_model kwargs = Some model -> In model ALLOWED_MODELS) ->
  kw_prompt kwargs = Some prompt ->
  kw_api_keys kwargs = Some keys -> key_anthropic keys = Some key ->
  kw_counter_callback kwargs = None ->
  links_truthy (kw_source_links kwargs) = false ->
  (forall query urls,
     search_google query (key_google_api_key keys) (key_google_engine_id keys)
       NUM_URLS_PER_QUERY = Ok urls -> urls = []) ->
  anthropic key (mkRequest $"claude-3-haiku-20240307" prediction_prompt
                   SYSTEM_PROMPT temperature max_tokens) = Ok response ->
  item (msg_content response) 0 = Ok block ->
  run DEFAULT_TEMPERATURE anthropic search_google list_set html_to_markdown
    http_get pdf_reader submit float float_repr kwargs
  = (results <- parser_prediction_response float float_repr block ;;
     Ok (mkRunOutput results prediction_prompt None)).
Proof.
  intros question prediction_prompt temperature max_tokens
         Ht Hin Hm Hp Hk Ha Hcb Hl Hs Hr Hb.
  unfold run. rewrite Ht, Hp, Hk, Hcb. cbn [required bind get_default].
  destruct (allowed_tool_engine tool Hin) as [E Et]. rewrite E. cbn [bind].
  rewrite Ha. cbn [required bind].
  assert (Hmodel : get_default (kw_model kwargs) $"claude-3-haiku-20240307"
                   = $"claude-3-haiku-20240307").
  { destruct (kw_model kwargs) as [m|] eqn:Em; [|reflexivity].
    cbn [get_default]. destruct (Hm m eq_refl) as [<-|[]]. reflexivity. }
  rewrite Hmodel. rewrite Et.
  change (str_in $"claude-3-haiku-20240307" ALLOWED_MODELS) with true.
  cbn [negb].
  rewrite fetch_additional_information_empty
    by first [exact list_set_In | exact Hl | exact Hs].
  cbn [bind fst snd]. fold question prediction_prompt temperature max_tokens.
  rewrite Hr. cbn [bind]. rewrite Hb. reflexivity.
Qed.

End RunProperties.

Lemma run_rejects_model_witness :
  run 0%Z answering_anthropic no_search example_list_set example_markdown
    html_http_get failing_pdf_reader example_submit probability_literal
    (fun f => f) (example_kwargs $"prediction-url-cot-claude" (Some $"gpt-4"))
  = Raise (ValueError $"Model gpt-4 not supported.").
Proof.
  apply (run_rejects_model Z 0%Z answering_anthropic no_search
           example_list_set example_markdown html_http_get failing_pdf_reader
           example_submit pystr probability_literal (fun f => f)
           (example_kwargs $"prediction-url-cot-claude" (Some $"gpt-4"))
           $"prediction-url-cot-claude" $"gpt-4" example_raw_prompt
           $"sk-key" example_keys);
    try reflexivity.
  - now left.
  - intros [H|[]]. discriminate H.
Defined.

Lemma run_unknown_tool_witness :
  run 0%Z answering_anthropic no_search example_list_set example_markdown
    html_http_get failing_pdf_reader example_submit probability_literal
    (fun f => f) (example_kwargs $"prediction-online" None)
  = Raise (KeyError $"prediction-online").
Proof.
  apply (run_unknown_tool Z 0%Z answering_anthropic no_search
           example_list_set example_markdown html_http_get failing_pdf_reader
           example_submit pystr probability_literal (fun f => f)
           (example_kwargs $"prediction-online" None) $"prediction-online").
  - reflexivity.
  - intros [H|[]]. discriminate H.
Defined.

Lemma run_without_documents_witness :
  run 0%Z answering_anthropic no_search example_list_set example_markdown
    html_http_get failing_pdf_reader example_submit probability_literal
    (fun f => f) (example_kwargs $"prediction-url-cot-claude" None)
  = Ok (mkRunOutput
          (json_dumps (fun f => f)
             [($"p_yes", $"0.7"); ($"p_no", $"0.3"); ($"info_utility", $"0.8");
              ($"confidence", $"0.9")])
          (PREDICTION_PROMPT [] $"Will X happen by 2025?") None).
Proof.
  rewrite (run_without_documents Z 0%Z answering_anthropic no_search
             example_list_set example_markdown html_http_get
             failing_pdf_reader example_submit pystr probability_literal
             (fun f => f) (fun l u => nodup_In (list_eq_dec ascii_dec) l u)
             (example_kwargs $"prediction-url-cot-claude" None)
             $"prediction-url-cot-claude" example_raw_prompt $"sk-key"
             example_keys (mkMessage [example_prediction] 10 20)
             example_prediction).
  - vm_compute. reflexivity.
  - reflexivity.
  - now left.
  - intros model H. discriminate H.
  - reflexivity.
  - reflexivity.
  - reflexivity.
  - reflexivity.
  - reflexivity.
  - intros query urls E. now injection E as <-.
  - reflexivity.
  - reflexivity.
Defined.

(** ** Supplied pages, repeated urls, missing entries *)

Lemma source_loop_length (html_to_markdown : pystr -> result (option pystr))
  (items : list (pystr * pystr)) (acc docs : list pyobj) :
  source_loop html_to_markdown items acc = Ok docs ->
  length docs = (length acc + length items)%nat.
Proof.
  revert acc. induction items as [|[u page] r IH]; intros acc H.
  - cbn in H. injection H as <-. cbn [length]. lia.
  - cbn [source_loop] in H. unfold bind in H.
    destruct (extract_text html_to_markdown page None) as [[d|]|];
      cbn [setattr_url] in H; try discriminate H.
    rewrite (IH _ H), length_app. cbn [length]. lia.
Qed.

(** X23: [num_urls] limits the supplied pages that are read: when the
    pages are gathered, a positive [num_urls] gives [min num_urls (number of
    pages)] documents, and no [num_urls], or 0, gives one per page. *)
Theorem gather_docs_num_urls (search_google :
    pystr -> option pystr -> option pystr -> Z -> result (list pystr))
  (list_set : list pystr -> list pystr)
  (html_to_markdown : pystr -> result (option pystr))
  (http_get : pystr -> result Response)
  (pdf_reader : bytes -> result (list (result pystr)))
  (submit : pystr -> nat -> option (result Response))
  (queries : list pystr) (google_api_key google_engine_id : option pystr)
  (links : dict pystr) (num_urls : option Z) (docs : list pyobj) :
  links <> [] ->
  gather_docs search_google list_set html_to_markdown http_get pdf_reader
    submit queries google_api_key google_engine_id (Some links) num_urls
  = Ok docs ->
  Z.of_nat (length docs)
  = match num_urls with
    | Some n => if (n =? 0)%Z then Z.of_nat (length links)
                else Z.min n (Z.of_nat (length links))
    | None => Z.of_nat (length links)
    end.
Proof.
  intros Hne. unfold gather_docs.
  assert (Hl : links_truthy (Some links) = true)
    by (destruct links; [contradiction | reflexivity]).
  rewrite Hl. cbn [negb]. unfold bind, islice_stop, truthy, int_of.
  destruct num_urls as [n|].
  - destruct (Z.eqb_spec n 0) as [->|Hn]; cbn [negb].
    + destruct ((Z.of_nat (length links) <? 0)
                || (SYS_MAXSIZE <? Z.of_nat (length links)))%Z;
        [discriminate|].
      intros H. apply source_loop_length in H. rewrite H, length_firstn.
      cbn [length]. lia.
    + destruct (n <? 0)%Z eqn:E; [discriminate|]. apply Z.ltb_ge in E.
      cbn [orb]. destruct (SYS_MAXSIZE <? n)%Z; [discriminate|].
      intros H. apply source_loop_length in H. rewrite H, length_firstn.
      cbn [length]. lia.
  - destruct ((Z.of_nat (length links) <? 0)
              || (SYS_MAXSIZE <? Z.of_nat (length links)))%Z;
      [discriminate|].
    intros H. apply source_loop_length in H. rewrite H, length_firstn.
    cbn [length]. lia.
Qed.

Lemma gather_docs_num_urls_witness :
  match gather_docs no_search example_list_set example_markdown html_http_get
          failing_pdf_reader example_submit [] None None (Some example_links)
          (Some 1%Z) with
  | Ok docs => Z.of_nat (length docs) = 1%Z
  | Raise _ => False
  end.
Proof.
  destruct (gather_docs no_search example_list_set example_markdown
              html_http_get failing_pdf_reader example_submit [] None None
              (Some example_links) (Some 1%Z)) as [docs|e] eqn:E.
  - rewrite (gather_docs_num_urls no_search example_list_set example_markdown
               html_http_get failing_pdf_reader example_submit [] None None
               example_links (Some 1%Z) docs ltac:(discriminate) E).
    reflexivity.
  - vm_compute in E. discriminate E.
Defined.

(** X24: the word count recorded for a url is the count of the last
    document of the list that has this url. *)
Theorem word_counts_last_wins (l1 l2 : list Document) (d : Document) :
  ~ In (url d) (map url l2) ->
  dict_get (word_counts (l1 ++ d :: l2)) (url d) = count_words (text d).
Proof.
  intros H. unfold word_counts. rewrite fold_left_app. cbn [fold_left].
  change (fold_left _ l2 ?acc) with (word_counts_from acc l2).
  rewrite word_counts_from_other by assumption.
  rewrite dict_get_set. now rewrite str_eqb_refl.
Qed.

Lemma word_counts_last_wins_witness :
  dict_get (word_counts [example_doc $"u" 80; example_doc $"v" 5;
                         example_doc $"u" 60]) $"u" = 60%Z.
Proof.
  etransitivity.
  - exact (word_counts_last_wins [example_doc $"u" 80; example_doc $"v" 5] []
             (example_doc $"u" 60) (fun H => H)).
  - vm_compute. reflexivity.
Defined.

Section RunEntries.

Variable T : Type.
Variable DEFAULT_TEMPERATURE : T.
Variable anthropic : pystr -> Request T -> result Message.
Variable search_google :
  pystr -> option pystr -> option pystr -> Z -> result (list pystr).
Variable list_set : list pystr -> list pystr.
Variable html_to_markdown : pystr -> result (option pystr).
Variable http_get : pystr -> result Response.
Variable pdf_reader : bytes -> result (list (result pystr)).
Variable submit : pystr -> nat -> option (result Response).
Variable pyfloat : Type.
Variable float : pystr -> result pyfloat.
Variable float_repr : pyfloat -> pystr.

(** X25: [run] needs the entries [tool] and [prompt] and the key
    [anthropic]: without [tool] it raises [KeyError] for [tool]; with an
    allowed tool and no [prompt], for [prompt]; with both and no
    [api_keys], or no [anthropic] among them, for [anthropic] - before the
    model is looked at. *)
Theorem run_missing_entries (kwargs : Kwargs T) :
  (kw_tool kwargs = None ->
   run DEFAULT_TEMPERATURE anthropic search_google list_set html_to_markdown
     http_get pdf_reader submit float float_repr kwargs
   = Raise (KeyError $"tool")) /\
  (forall tool,
     kw_tool kwargs = Some tool -> In tool ALLOWED_TOOLS ->
     kw_prompt kwargs = None ->
     run DEFAULT_TEMPERATURE anthropic search_google list_set html_to_markdown
       http_get pdf_reader submit float float_repr kwargs
     = Raise (KeyError $"prompt")) /\
  (forall tool prompt,
     kw_tool kwargs = Some tool -> In tool ALLOWED_TOOLS ->
     kw_prompt kwargs = Some prompt ->
     (kw_api_keys kwargs = None \/
      exists keys, kw_api_keys kwargs = Some keys /\ key_anthropic keys = None) ->
     run DEFAULT_TEMPERATURE anthropic search_google list_set html_to_markdown
       http_get pdf_reader submit float float_repr kwargs
     = Raise (KeyError $"anthropic")).
Proof.
  split; [|split].
  - intros H. unfold run. now rewrite H.
  - intros tool Ht Hin Hp. unfold run. rewrite Ht, Hp. cbn [required bind].
    destruct (allowed_tool_engine tool Hin) as [E _]. now rewrite E.
  - intros tool prompt Ht Hin Hp Hk. unfold run. rewrite Ht, Hp.
    cbn [required bind].
    destruct (allowed_tool_engine tool Hin) as [E _]. rewrite E. cbn [bind].
    destruct Hk as [Hk|(keys & Hk & Ha)]; rewrite Hk; cbn [get_default].
    + reflexivity.
    + now rewrite Ha.
Qed.

End RunEntries.

Lemma run_missing_entries_witness :
  run 0%Z answering_anthropic no_search example_list_set example_markdown
    html_http_get failing_pdf_reader example_submit probability_literal
    (fun f => f)
    (mkKwargs (Some $"prediction-url-cot-claude") None
       (Some example_raw_prompt) None None None None None None None None)
  = Raise (KeyError $"anthropic").
Proof.
  destruct (run_missing_entries Z 0%Z answering_anthropic no_search
              example_list_set example_markdown html_http_get
              failing_pdf_reader example_submit pystr probability_literal
              (fun f => f)
              (mkKwargs (Some $"prediction-url-cot-claude") None
                 (Some example_raw_prompt) None None None None None None None
                 None)) as (_ & _ & H).
  apply (H $"prediction-url-cot-claude" example_raw_prompt eq_refl
           (or_introl eq_refl) eq_refl (or_introl eq_refl)).
Defined.
